(** * HappyDay: the elimination-voting backend ([backend/main.py])

    A shallow embedding of the in-memory [DataStore] and of the request
    handlers that mutate it, followed by the properties of the round
    state machine and of the elimination rule.

    Modelling conventions.
    - A Python [str] is the [string] of its UTF-8 encoding.  Equality,
      emptiness, concatenation and the search for one of the ASCII
      characters [validate_name] forbids are then what they are on the
      bytes.  [str.lower], [str.strip] and [len] are not: they depend on
      the Unicode character database, and are the interface [PyStr.Ops].
      The properties are proved for every implementation of the interface
      that obeys the laws stated with it; the sample sessions, whose names
      are ASCII, are run on [AsciiStr.ops].
    - Python [int] is [Z].
    - A Python [dict] iterates in insertion order, and the handlers depend
      on that order (first match of a name, order of the survivor list,
      order of the tallies), so a dict is an association list whose
      operations keep the insertion order: assignment to an existing key
      replaces the value in place, assignment to a new key appends.
    - [store.eliminated_users] is a Python [set], modelled as a [gset].
    - Every handler runs to completion before the next one starts.
    - [uuid.uuid4()] and [datetime.now()] are inputs of the registration
      handler.  The connections of [ConnectionManager] are kept in a state
      of their own, apart from the store. *)

From Stdlib Require Import ZArith Lia Ascii String.
From stdpp Require Import base tactics option list strings gmap pretty.

Local Open Scope Z_scope.

(** ** Python strings *)

Module PyStr.

(** The built-ins that read the Unicode character database: [s.lower()],
    [s.strip()] without argument, and [len(s)], the number of characters
    of [s], which is also what [min_length] and [max_length] of a pydantic
    [Field] count.  What is used of them are four laws of CPython's [str]:
    stripping twice is stripping once; stripping commutes with
    lower-casing (a blank character has no case, and the lower-case form
    of any other character neither begins nor ends with a blank);
    stripping does not add characters; the empty string is the only one
    without a character. *)
Class Ops := {
  lower : string → string;
  strip : string → string;
  len : string → nat;
  strip_idemp : ∀ s, strip (strip s) = strip s;
  strip_lower : ∀ s, strip (lower s) = lower (strip s);
  len_strip : ∀ s, (len (strip s) ≤ len s)%nat;
  len_empty : ∀ s, len s = 0%nat ↔ s = EmptyString
}.

Definition is_empty (s : string) : bool :=
  match s with EmptyString => true | String _ _ => false end.

(** The character class searched by [validate_name], as code points:
    less-than, greater-than, double quote, single quote, slash,
    backslash, semicolon, ampersand, bar, backquote and dollar.  All of
    them are ASCII, and in UTF-8 a byte below 128 is always a character
    of its own. *)
Definition illegal_codes : list nat :=
  [60; 62; 34; 39; 47; 92; 59; 38; 124; 96; 36]%nat.

Definition is_illegal (c : ascii) : bool :=
  bool_decide (nat_of_ascii c ∈ illegal_codes).

(** [re.search(r'[...]', s)] for that class. *)
Fixpoint has_illegal (s : string) : bool :=
  match s with
  | EmptyString => false
  | String c r => is_illegal c || has_illegal r
  end.

End PyStr.

(** The built-ins on strings of ASCII characters, where a character is a
    byte: the letters [A]-[Z] fold to [a]-[z], and the blank characters
    are TAB, LF, VT, FF, CR, the four separators 0x1c-0x1f and the
    space. *)
Module AsciiStr.

Definition is_space (c : ascii) : bool :=
  let n := nat_of_ascii c in
  ((9 <=? n) && (n <=? 13) || (28 <=? n) && (n <=? 32))%nat.

Definition lower_char (c : ascii) : ascii :=
  let n := nat_of_ascii c in
  if ((65 <=? n) && (n <=? 90))%nat then ascii_of_nat (n + 32) else c.

Fixpoint lower (s : string) : string :=
  match s with
  | EmptyString => EmptyString
  | String c r => String (lower_char c) (lower r)
  end.

Fixpoint lstrip (s : string) : string :=
  match s with
  | EmptyString => EmptyString
  | String c r => if is_space c then lstrip r else s
  end.

Fixpoint rstrip (s : string) : string :=
  match s with
  | EmptyString => EmptyString
  | String c r =>
      let r' := rstrip r in
      if is_space c && PyStr.is_empty r' then EmptyString else String c r'
  end.

Definition strip (s : string) : string := rstrip (lstrip s).

Definition ops : PyStr.Ops.
Proof.
  refine {| PyStr.lower := lower; PyStr.strip := strip;
            PyStr.len := String.length |}.
  - (* strip_idemp *)
    assert (∀ s, rstrip (rstrip s) = rstrip s) as Hrr.
    { induction s as [|c r IH]; simpl; [done|].
      destruct (is_space c && PyStr.is_empty (rstrip r)) eqn:E; simpl; [done|].
      by rewrite IH, E. }
    assert (∀ s, match lstrip s with
                 | EmptyString => True
                 | String c _ => is_space c = false
                 end) as Hhead.
    { induction s as [|c r IH]; simpl; [done|].
      by destruct (is_space c) eqn:E; simpl. }
    intros s. unfold strip. pose proof (Hhead s) as H.
    destruct (lstrip s) as [|c r]; simpl; [done|].
    rewrite H; simpl. rewrite H; simpl. by rewrite Hrr, H.
  - (* strip_lower *)
    assert (∀ c, is_space (lower_char c) = is_space c) as Hsp
      by (by intros [[] [] [] [] [] [] [] []]).
    assert (∀ s, PyStr.is_empty (lower s) = PyStr.is_empty s) as Hem
      by (by intros []).
    assert (∀ s, lstrip (lower s) = lower (lstrip s)) as Hl.
    { induction s as [|c r IH]; simpl; [done|].
      rewrite Hsp. by destruct (is_space c). }
    assert (∀ s, rstrip (lower s) = lower (rstrip s)) as Hr.
    { induction s as [|c r IH]; simpl; [done|].
      rewrite Hsp, IH, Hem.
      by destruct (is_space c), (PyStr.is_empty (rstrip r)). }
    intros s. unfold strip. by rewrite Hl, Hr.
  - (* len_strip *)
    assert (∀ s, (String.length (lstrip s) ≤ String.length s)%nat) as Hl.
    { induction s as [|c r IH]; simpl; [done|].
      destruct (is_space c); simpl; lia. }
    assert (∀ s, (String.length (rstrip s) ≤ String.length s)%nat) as Hr.
    { induction s as [|c r IH]; simpl; [done|].
      destruct (is_space c && PyStr.is_empty (rstrip r)); simpl; lia. }
    intros s. unfold strip. pose proof (Hr (lstrip s)). pose proof (Hl s). lia.
  - (* len_empty *)
    intros [|c r]; simpl; split; done.
Defined.

End AsciiStr.

(** ** Python dicts, in insertion order *)

Module PyDict.
Abbreviation dict V := (list (string * V)).

Section Dict.
Context {V : Type}.

(** [d.get(k)] / [d[k]] *)
Fixpoint get (k : string) (d : dict V) : option V :=
  match d with
  | [] => None
  | (k', v) :: r => if decide (k' = k) then Some v else get k r
  end.

(** [k in d] *)
Definition contains (k : string) (d : dict V) : bool :=
  match get k d with Some _ => true | None => false end.

(** [d[k] = v] *)
Fixpoint set (k : string) (v : V) (d : dict V) : dict V :=
  match d with
  | [] => [(k, v)]
  | (k', v') :: r =>
      if decide (k' = k) then (k, v) :: r else (k', v') :: set k v r
  end.

(** In-place mutation of the object stored under [k]. *)
Fixpoint alter (f : V → V) (k : string) (d : dict V) : dict V :=
  match d with
  | [] => []
  | (k', v) :: r =>
      if decide (k' = k) then (k', f v) :: r else (k', v) :: alter f k r
  end.

(** [d.keys()], [d.values()] *)
Definition keys (d : dict V) : list string := d.*1.
Definition values (d : dict V) : list V := d.*2.

(** In-place mutation of every stored object ([for v in d.values(): ...]). *)
Definition map_values (f : V → V) (d : dict V) : dict V :=
  (λ kv, (kv.1, f kv.2)) <$> d.

End Dict.
End PyDict.

(** ** Data model *)

Module User.
(** The dict stored under a token in [store.users]. *)
Record t := mk {
  name : string;
  voted : bool;
  vote_option : option string;
  eliminated : bool;
  joined_at : string
}.
Definition set_voted (b : bool) (u : t) : t :=
  mk (name u) b (vote_option u) (eliminated u) (joined_at u).
Definition set_vote_option (o : option string) (u : t) : t :=
  mk (name u) (voted u) o (eliminated u) (joined_at u).
Definition set_eliminated (b : bool) (u : t) : t :=
  mk (name u) (voted u) (vote_option u) b (joined_at u).
End User.

Module VoteOption.
Record t := mk {
  id : string;
  name : string;
  votes : Z
}.
(** [VoteOption(id=..., name=...)]: [votes] defaults to 0. *)
Definition new (i n : string) : t := mk i n 0.
Definition add_vote (o : t) : t := mk (id o) (name o) (votes o + 1).
End VoteOption.

Inductive Status := waiting | voting | result.

Global Instance Status_eq_dec : EqDecision Status.
Proof. solve_decision. Defined.

Module HistoryEntry.
(** One element of [store.round_history]. *)
Record t := mk {
  round : Z;
  options : list (string * Z);
  is_tie : bool;
  survivors : list string;
  eliminated : list string
}.
End HistoryEntry.

Record DataStore := mkStore {
  users : PyDict.dict User.t;
  options : PyDict.dict VoteOption.t;
  game_status : Status;
  round : Z;
  eliminated_users : gset string;
  round_history : list HistoryEntry.t
}.

(** [DataStore.reset] (also the state built by [DataStore.__init__]). *)
Definition reset : DataStore :=
  mkStore [] [] waiting 1 ∅ [].

(** ** Exceptions and the handler monad *)

(** What a handler can raise.  [HTTPException] carries the status code and
    the detail message of the source; [RequestValidationError] is the
    rejection of a request body by its pydantic model; the last two are
    the built-in exceptions of [max] and of dict indexing. *)
Inductive Exn :=
| HTTPException (status_code : Z) (detail : string)
| RequestValidationError
| ValueError
| KeyError.

Global Instance Exn_eq_dec : EqDecision Exn.
Proof. solve_decision. Defined.

Inductive outcome (A : Type) :=
| Return (a : A)
| Raise (e : Exn).
Arguments Return {A} a.
Arguments Raise {A} e.

(** A handler reads and mutates the global [store]; an exception leaves
    the store as it is at the point of the [raise]. *)
Definition M (A : Type) : Type := DataStore → DataStore * outcome A.

Global Instance M_ret : MRet M := λ A a st, (st, Return a).
Global Instance M_bind : MBind M := λ A B f m st,
  match m st with
  | (st', Return a) => f a st'
  | (st', Raise e) => (st', Raise e)
  end.

Global Instance M_fmap : FMap M := λ A B f m st,
  match m st with
  | (st', Return a) => (st', Return (f a))
  | (st', Raise e) => (st', Raise e)
  end.

Definition raise {A} (e : Exn) : M A := λ st, (st, Raise e).
Definition get_store : M DataStore := λ st, (st, Return st).
Definition modify (f : DataStore → DataStore) : M unit := λ st, (f st, Return tt).

Definition with_users (f : PyDict.dict User.t → PyDict.dict User.t)
    (st : DataStore) : DataStore :=
  mkStore (f (users st)) (options st) (game_status st) (round st)
          (eliminated_users st) (round_history st).
Definition with_options (f : PyDict.dict VoteOption.t → PyDict.dict VoteOption.t)
    (st : DataStore) : DataStore :=
  mkStore (users st) (f (options st)) (game_status st) (round st)
          (eliminated_users st) (round_history st).
Definition with_game_status (g : Status) (st : DataStore) : DataStore :=
  mkStore (users st) (options st) g (round st)
          (eliminated_users st) (round_history st).
Definition with_round (f : Z → Z) (st : DataStore) : DataStore :=
  mkStore (users st) (options st) (game_status st) (f (round st))
          (eliminated_users st) (round_history st).
Definition with_eliminated_users (f : gset string → gset string)
    (st : DataStore) : DataStore :=
  mkStore (users st) (options st) (game_status st) (round st)
          (f (eliminated_users st)) (round_history st).
Definition with_round_history (f : list HistoryEntry.t → list HistoryEntry.t)
    (st : DataStore) : DataStore :=
  mkStore (users st) (options st) (game_status st) (round st)
          (eliminated_users st) (f (round_history st)).

(** ** The configuration file *)

Module Config.
(** One value of [config["rounds"]]; a missing key reads as [None]. *)
Record Round := mkRound {
  options : option (list string);
  title : option string
}.
(** The JSON object of [rounds_config.json]. *)
Record t := mk {
  rounds : option (gmap string Round);
  default_options : option (list string)
}.
End Config.

(** ** The connection manager *)

(** A connection object; two connections are equal only when they are
    the same object. *)
Definition WebSocket : Type := nat.

(** [list.remove(x)]: the first occurrence goes; [None] stands for the
    [ValueError] raised when there is none. *)
Fixpoint py_list_remove {A} `{EqDecision A} (x : A) (l : list A)
    : option (list A) :=
  match l with
  | [] => None
  | y :: r => if decide (y = x) then Some r else (y ::.) <$> py_list_remove x r
  end.

(** [del d[k]]; [None] stands for the [KeyError]. *)
Fixpoint py_dict_del {V} (k : string) (d : PyDict.dict V)
    : option (PyDict.dict V) :=
  match d with
  | [] => None
  | (k', v) :: r =>
      if decide (k' = k) then Some r else ((k', v) ::.) <$> py_dict_del k r
  end.

Module Manager.
Section Manager.
Context {Message : Type}.

Record t := mk {
  host_connections : list WebSocket;
  user_connections : PyDict.dict WebSocket
}.

(** [ConnectionManager.__init__] *)
Definition init : t := mk [] [].

(** [connect_host], after the connection is accepted. *)
Definition connect_host (websocket : WebSocket) (m : t) : t :=
  mk (host_connections m ++ [websocket]) (user_connections m).

(** [disconnect_host] *)
Definition disconnect_host (websocket : WebSocket) (m : t) : option t :=
  if bool_decide (websocket ∈ host_connections m) then
    l ← py_list_remove websocket (host_connections m);
    Some (mk l (user_connections m))
  else Some m.

(** [connect_user], after the connection is accepted. *)
Definition connect_user (websocket : WebSocket) (token : string) (m : t) : t :=
  mk (host_connections m) (PyDict.set token websocket (user_connections m)).

(** [disconnect_user] *)
Definition disconnect_user (token : string) (m : t) : option t :=
  if PyDict.contains token (user_connections m) then
    d ← py_dict_del token (user_connections m);
    Some (mk (host_connections m) d)
  else Some m.

(** The first loop of [broadcast_to_hosts]: [ok i] tells whether the
    [i]-th [send_json] of the pass goes through; the value is the
    connections served and the list [disconnected]. *)
Fixpoint host_pass (ok : nat → bool) (i : nat) (connections : list WebSocket)
    : list WebSocket * list WebSocket :=
  match connections with
  | [] => ([], [])
  | connection :: r =>
      let '(sent, disconnected) := host_pass ok (S i) r in
      if ok i then (connection :: sent, disconnected)
      else (sent, connection :: disconnected)
  end.

(** The second loop: [for conn in disconnected: self.host_connections.remove(conn)]. *)
Fixpoint remove_all (disconnected : list WebSocket) (l : list WebSocket)
    : option (list WebSocket) :=
  match disconnected with
  | [] => Some l
  | conn :: r => l' ← py_list_remove conn l; remove_all r l'
  end.

(** [broadcast_to_hosts]: the manager afterwards and the messages that
    went out, in order. *)
Definition broadcast_to_hosts (ok : nat → bool) (message : Message) (m : t)
    : option (t * list (WebSocket * Message)) :=
  let '(sent, disconnected) := host_pass ok 0 (host_connections m) in
  l ← remove_all disconnected (host_connections m);
  Some (mk l (user_connections m), (λ c, (c, message)) <$> sent).

(** The first loop of [broadcast_to_users]. *)
Fixpoint user_pass (ok : nat → bool) (i : nat)
    (items : list (string * WebSocket)) : list WebSocket * list string :=
  match items with
  | [] => ([], [])
  | (token, connection) :: r =>
      let '(sent, disconnected) := user_pass ok (S i) r in
      if ok i then (connection :: sent, disconnected)
      else (sent, token :: disconnected)
  end.

(** The second loop: [for token in disconnected: del self.user_connections[token]]. *)
Fixpoint del_all (disconnected : list string) (d : PyDict.dict WebSocket)
    : option (PyDict.dict WebSocket) :=
  match disconnected with
  | [] => Some d
  | token :: r => d' ← py_dict_del token d; del_all r d'
  end.

(** [broadcast_to_users] *)
Definition broadcast_to_users (ok : nat → bool) (message : Message) (m : t)
    : option (t * list (WebSocket * Message)) :=
  let '(sent, disconnected) := user_pass ok 0 (user_connections m) in
  d ← del_all disconnected (user_connections m);
  Some (mk (host_connections m) d, (λ c, (c, message)) <$> sent).

(** [send_to_user]; [ok] tells whether the [send_json] goes through. *)
Definition send_to_user (ok : bool) (token : string) (message : Message)
    (m : t) : option (t * list (WebSocket * Message)) :=
  match PyDict.get token (user_connections m) with
  | None => Some (m, [])
  | Some connection =>
      if ok then Some (m, [(connection, message)])
      else
        d ← py_dict_del token (user_connections m);
        Some (mk (host_connections m) d, [])
  end.

End Manager.
Arguments t : clear implicits.
End Manager.

Section Backend.
Context {unicode : PyStr.Ops}.

(** ** Request models *)

(** [UserRegisterRequest]: the [Field] bounds on the raw string, then
    [validate_name]. *)
Definition validate_name (v : string) : option string :=
  let v := PyStr.strip v in
  if PyStr.is_empty v then None
  else if PyStr.has_illegal v then None
  else Some v.

Definition UserRegisterRequest (name : string) : option string :=
  if bool_decide (1 ≤ PyStr.len name ≤ 20)%nat then validate_name name
  else None.

(** [CreateOptionsRequest]: between 2 and 4 options. *)
Definition CreateOptionsRequest (opts : list string) : option (list string) :=
  if bool_decide (2 ≤ length opts ≤ 4)%nat then Some opts else None.

Record UserRegisterResponse := mkRegisterResponse {
  reg_success : bool;
  reg_message : string;
  reg_token : option string;
  reg_user_name : option string;
  reg_options : option (list (string * string))
}.

Record VoteResponse := mkVoteResponse {
  vote_success : bool;
  vote_message : string
}.

Record NextRoundResponse := mkNextRoundResponse {
  nr_success : bool;
  nr_round : Z;
  nr_eliminated_count : nat;
  nr_active_users : nat;
  nr_is_tie : bool;
  nr_message : string
}.

(** ** [DataStore] queries *)

(** The loop of [DataStore.get_token_by_name]. *)
Fixpoint find_token (name_lower : string) (items : list (string * User.t))
    : option string :=
  match items with
  | [] => None
  | (token, user) :: r =>
      if decide (PyStr.lower (User.name user) = name_lower) then Some token
      else find_token name_lower r
  end.

Definition get_token_by_name (st : DataStore) (name : string) : option string :=
  let name_lower := PyStr.strip (PyStr.lower name) in
  find_token name_lower (users st).

(** [[{"id": opt.id, "name": opt.name} for opt in store.options.values()]]
    when the phase is voting, else [None]. *)
Definition current_options (st : DataStore) : option (list (string * string)) :=
  if decide (game_status st = voting)
  then Some ((λ opt, (VoteOption.id opt, VoteOption.name opt))
               <$> PyDict.values (options st))
  else None.

(** [len([u for u in store.users.values() if not u.get("eliminated", False)])] *)
Definition active_users (st : DataStore) : nat :=
  length (filter (λ u, User.eliminated u = false) (PyDict.values (users st))).

(** The loop that clears the ballot of every participant still in play. *)
Definition reset_vote (user : User.t) : User.t :=
  if User.eliminated user then user
  else User.set_vote_option None (User.set_voted false user).

(** [f"option_{i+1}"] *)
Definition option_id (i : nat) : string := "option_" +:+ pretty (i + 1)%nat.

(** [for i, name in enumerate(names): store.options[option_id] = VoteOption(...)] *)
Fixpoint install_options (i : nat) (names : list string)
    (d : PyDict.dict VoteOption.t) : PyDict.dict VoteOption.t :=
  match names with
  | [] => d
  | name :: r =>
      install_options (S i) r
        (PyDict.set (option_id i) (VoteOption.new (option_id i) name) d)
  end.

(** ** The handlers *)

Definition new_user (name now : string) : User.t :=
  User.mk name false None false now.

(** The second half of [register_user]: a participant is created under the
    token [token] drawn by [uuid.uuid4()]. *)
Definition register_new (name token now : string) : M UserRegisterResponse :=
  modify (with_users (PyDict.set token (new_user name now)));;
  st ← get_store;
  mret (mkRegisterResponse true "姓名验证通过" (Some token) (Some name)
          (current_options st)).

(** [register_user]; [name] is [request.name], already validated.  The test
    [if existing_token:] is Python truthiness: [None] and the empty string
    both take the new-participant path. *)
Definition register_user (name token now : string) : M UserRegisterResponse :=
  st ← get_store;
  match get_token_by_name st name with
  | Some ((String _ _) as existing_token) =>
      match PyDict.get existing_token (users st) with
      | None => raise KeyError
      | Some user =>
          mret (mkRegisterResponse true "欢迎回来" (Some existing_token)
                  (Some (User.name user)) (current_options st))
      end
  | _ => register_new name token now
  end.

(** [submit_vote] *)
Definition submit_vote (token option_id : string) : M VoteResponse :=
  st ← get_store;
  match PyDict.get token (users st) with
  | None => raise (HTTPException 404 "用户不存在，请重新注册")
  | Some user =>
      if User.eliminated user then
        raise (HTTPException 403 "您已被淘汰，无法投票")
      else if User.voted user then
        raise (HTTPException 400 "您已经投过票了")
      else if negb (bool_decide (game_status st = voting)) then
        raise (HTTPException 400 "当前不在投票阶段")
      else if negb (PyDict.contains option_id (options st)) then
        raise (HTTPException 400 "无效的选项")
      else
        modify (with_options (PyDict.alter VoteOption.add_vote option_id));;
        modify (with_users (PyDict.alter (User.set_voted true) token));;
        modify (with_users
                  (PyDict.alter (User.set_vote_option (Some option_id)) token));;
        mret (mkVoteResponse true "投票成功")
  end.

(** The common body of [create_options] and [load_preset_options]. *)
Definition replace_options (names : list string) : M (list VoteOption.t) :=
  modify (with_options (λ _, []));;
  modify (with_users (PyDict.map_values reset_vote));;
  modify (with_options (install_options 0 names));;
  st ← get_store;
  mret (PyDict.values (options st)).

(** [create_options]; [names] is [request.options], already validated. *)
Definition create_options (names : list string) : M (list VoteOption.t) :=
  replace_options names.

(** [load_preset_options]; [preset_options] is what
    [get_round_options(store.round)] read from the configuration file. *)
Definition load_preset_options (preset_options : option (list string))
    : M (list VoteOption.t) :=
  match preset_options with
  | None | Some [] =>
      raise (HTTPException 404 "当前轮次无预设选项，请手动设置")
  | Some names => replace_options names
  end.

(** [start_voting] *)
Definition start_voting : M unit :=
  st ← get_store;
  match options st with
  | [] => raise (HTTPException 400 "请先设置投票选项")
  | _ => modify (with_game_status voting)
  end.

(** [end_voting]; the value is [results]. *)
Definition end_voting : M (list VoteOption.t) :=
  st ← get_store;
  if negb (bool_decide (game_status st = voting)) then
    raise (HTTPException 400 "当前不在投票阶段")
  else
    modify (with_game_status result);;
    st ← get_store;
    mret (PyDict.values (options st)).

(** [reset_game] *)
Definition reset_game : M unit := modify (λ _, reset).

(** *** [next_round] *)

(** [len(set(vote_counts)) == 1 and vote_counts[0] > 0].  The second
    operand is evaluated only when the first holds, and then the list has
    a head. *)
Definition is_tie_of (vote_counts : list Z) : bool :=
  bool_decide (size (list_to_set vote_counts : gset Z) = 1%nat)
  && match vote_counts with
     | v :: _ => bool_decide (0 < v)
     | [] => false
     end.

(** [max(...)]: [None] stands for the [ValueError] on an empty sequence. *)
Definition py_max (l : list Z) : option Z :=
  match l with
  | [] => None
  | x :: r => Some (foldl Z.max x r)
  end.

(** [[opt.id for opt in store.options.values() if opt.votes == max_votes]] *)
Definition majority_options_of (max_votes : Z) (opts : PyDict.dict VoteOption.t)
    : list string :=
  VoteOption.id <$>
    filter (λ opt, VoteOption.votes opt = max_votes) (PyDict.values opts).

(** [user.get("vote_option") in majority_options] *)
Definition voted_in (user : User.t) (majority_options : list string) : bool :=
  match User.vote_option user with
  | Some o => bool_decide (o ∈ majority_options)
  | None => false
  end.

(** What one pass over [store.users.items()] produces: the users after the
    in-place updates, [eliminated_tokens] and [survivors]. *)
Definition sweep : Type :=
  PyDict.dict User.t * list string * list string.

(** The loop of the tie branch. *)
Fixpoint tie_loop (items : list (string * User.t)) : sweep :=
  match items with
  | [] => ([], [], [])
  | (token, user) :: r =>
      let '(us, eliminated_tokens, survivors) := tie_loop r in
      if User.eliminated user then
        ((token, user) :: us, eliminated_tokens, survivors)
      else if negb (User.voted user) then
        ((token, User.set_eliminated true user) :: us,
         token :: eliminated_tokens, survivors)
      else
        ((token, user) :: us, eliminated_tokens, User.name user :: survivors)
  end.

(** The loop of the majority branch. *)
Fixpoint majority_loop (majority_options : list string)
    (items : list (string * User.t)) : sweep :=
  match items with
  | [] => ([], [], [])
  | (token, user) :: r =>
      let '(us, eliminated_tokens, survivors) :=
        majority_loop majority_options r in
      if User.eliminated user then
        ((token, user) :: us, eliminated_tokens, survivors)
      else if negb (User.voted user) then
        ((token, User.set_eliminated true user) :: us,
         token :: eliminated_tokens, survivors)
      else if voted_in user majority_options then
        ((token, User.set_eliminated true user) :: us,
         token :: eliminated_tokens, survivors)
      else
        ((token, user) :: us, eliminated_tokens, User.name user :: survivors)
  end.

(** Writes the result of a pass back to the store. *)
Definition commit_sweep (sw : sweep) : M (list string * list string) :=
  let '(us, eliminated_tokens, survivors) := sw in
  modify (with_users (λ _, us));;
  modify (with_eliminated_users (λ s, s ∪ list_to_set eliminated_tokens));;
  mret (eliminated_tokens, survivors).

(** [[store.users[t]["name"] for t in eliminated_tokens]] *)
Definition names_of (us : PyDict.dict User.t) (tokens : list string)
    : option (list string) :=
  mapM (λ t, User.name <$> PyDict.get t us) tokens.

Definition next_round_message (is_tie : bool) (eliminated_count : nat) : string :=
  if is_tie then "平局！本轮不淘汰任何投票者"
  else "淘汰了 " +:+ pretty eliminated_count +:+ " 人".

Definition next_round (new_options : option (list string)) : M NextRoundResponse :=
  st ← get_store;
  if negb (bool_decide (game_status st = result)) then
    raise (HTTPException 400 "请先结束当前投票")
  else
    let vote_counts := VoteOption.votes <$> PyDict.values (options st) in
    let is_tie := is_tie_of vote_counts in
    let round_options :=
      (λ opt, (VoteOption.name opt, VoteOption.votes opt))
        <$> PyDict.values (options st) in
    '(eliminated_tokens, survivors) ←
      (if is_tie then commit_sweep (tie_loop (users st))
       else
         match py_max vote_counts with
         | None => raise ValueError
         | Some max_votes =>
             let majority_options := majority_options_of max_votes (options st) in
             commit_sweep (majority_loop majority_options (users st))
         end);
    st ← get_store;
    match names_of (users st) eliminated_tokens with
    | None => raise KeyError
    | Some eliminated_names =>
        modify (with_round_history (λ h,
          h ++ [HistoryEntry.mk (round st) round_options is_tie
                  survivors eliminated_names]));;
        modify (with_round (λ r, r + 1));;
        modify (with_game_status waiting);;
        modify (with_options (λ _, []));;
        modify (with_users (PyDict.map_values reset_vote));;
        match new_options with
        | Some ((_ :: _) as names) =>
            modify (with_options (install_options 0 names))
        | _ => mret tt
        end;;
        st ← get_store;
        mret (mkNextRoundResponse true (round st) (length eliminated_tokens)
                (active_users st) is_tie
                (next_round_message is_tie (length eliminated_tokens)))
    end.

(** ** Requests and traces *)

(** A request as the HTTP layer receives it.  [Register] carries the raw
    name together with the token and the timestamp drawn while it is
    served; [LoadPreset] carries the configured option list of the current
    round. *)
Inductive Request :=
| Register (name token now : string)
| Vote (token option_id : string)
| CreateOptions (opts : list string)
| LoadPreset (preset_options : option (list string))
| StartVoting
| EndVoting
| NextRound (new_options : option (list string))
| Reset.

Global Instance Request_eq_dec : EqDecision Request.
Proof. solve_decision. Defined.

Inductive Response :=
| RegisterOk (r : UserRegisterResponse)
| VoteOk (r : VoteResponse)
| OptionsOk (opts : list VoteOption.t)
| StartOk
| EndOk (results : list VoteOption.t)
| NextRoundOk (r : NextRoundResponse)
| ResetOk.

(** Serving one request: body validation first, then the handler. *)
Definition serve (req : Request) : M Response :=
  match req with
  | Register name token now =>
      match UserRegisterRequest name with
      | None => raise RequestValidationError
      | Some name => RegisterOk <$> register_user name token now
      end
  | Vote token option_id => VoteOk <$> submit_vote token option_id
  | CreateOptions opts =>
      match CreateOptionsRequest opts with
      | None => raise RequestValidationError
      | Some opts => OptionsOk <$> create_options opts
      end
  | LoadPreset preset_options => OptionsOk <$> load_preset_options preset_options
  | StartVoting => start_voting;; mret StartOk
  | EndVoting => EndOk <$> end_voting
  | NextRound new_options => NextRoundOk <$> next_round new_options
  | Reset => reset_game;; mret ResetOk
  end.

(** The token drawn by [uuid.uuid4()] while a registration is served is a
    non-empty string that is not yet a key of [store.users]. *)
Definition uuid_fresh (st : DataStore) (req : Request) : Prop :=
  match req with
  | Register _ token _ => token ≠ "" ∧ PyDict.get token (users st) = None
  | _ => True
  end.

Global Instance uuid_fresh_dec st req : Decision (uuid_fresh st req).
Proof. destruct req; simpl; apply _. Defined.

(** The stores the program can be in: the initial one, and the store left
    by any request served in such a store. *)
Inductive reachable : DataStore → Prop :=
| reachable_init : reachable reset
| reachable_serve st req :
    reachable st → uuid_fresh st req → reachable (serve req st).1.

(** Serving a sequence of requests, one after the other. *)
Fixpoint run (reqs : list Request) (st : DataStore) : DataStore :=
  match reqs with
  | [] => st
  | req :: r => run r (serve req st).1
  end.

Fixpoint admissible (reqs : list Request) (st : DataStore) : Prop :=
  match reqs with
  | [] => True
  | req :: r => uuid_fresh st req ∧ admissible r (serve req st).1
  end.

Global Instance admissible_dec reqs st : Decision (admissible reqs st).
Proof. revert st; induction reqs; simpl; intros; apply _. Defined.

(** The strings [uuid.uuid4()] holds ready for the registrations of a
    run, in the order the requests arrive. *)
Definition draws (reqs : list Request) : list string :=
  omap (λ req, match req with
               | Register _ token _ => Some token
               | _ => None
               end) reqs.

(** [uuid.uuid4()] never returns the empty string, and never the same
    string twice. *)
Definition uuid_distinct (reqs : list Request) : Prop :=
  NoDup (draws reqs) ∧ Forall (λ token, token ≠ "") (draws reqs).

(** ** Figures the handlers report *)

(** [total_votes] of [get_results]. *)
Definition total_votes (st : DataStore) : Z :=
  foldr Z.add 0 (VoteOption.votes <$> PyDict.values (options st)).

(** [voted_count] of [get_config]. *)
Definition voted_count (st : DataStore) : nat :=
  length (filter (λ u, User.voted u = true ∧ User.eliminated u = false)
            (PyDict.values (users st))).

(** The eliminated flag of the participant holding [token]. *)
Definition is_eliminated (st : DataStore) (token : string) : Prop :=
  ∃ user, PyDict.get token (users st) = Some user ∧ User.eliminated user = true.

Definition in_play (st : DataStore) (token : string) : Prop :=
  ∃ user, PyDict.get token (users st) = Some user ∧ User.eliminated user = false.

(** ** Invariants of the reachable stores *)

Record Inv (st : DataStore) : Prop := mkInv {
  (** ballots are only open or closed over a non-empty option set *)
  inv_options : game_status st ≠ waiting → options st ≠ [];
  (** every counted ballot belongs to a participant still in play *)
  inv_tally : total_votes st = Z.of_nat (voted_count st);
  (** tokens are the keys of a dict *)
  inv_tokens : NoDup (PyDict.keys (users st));
  (** no two participants share a name, even up to case *)
  inv_names :
    NoDup ((λ u, PyStr.lower (User.name u)) <$> PyDict.values (users st));
  (** no token is the empty string *)
  inv_nonempty : Forall (λ token, token ≠ "") (PyDict.keys (users st))
}.

(** ** Closed forms of the elimination passes *)

(** Who leaves in a tie, and who leaves otherwise. *)
Definition tie_out (user : User.t) : bool := negb (User.voted user).

Definition majority_out (majority_options : list string) (user : User.t) : bool :=
  negb (User.voted user) || voted_in user majority_options.

Definition mark (out : User.t → bool) (user : User.t) : User.t :=
  if User.eliminated user then user
  else if out user then User.set_eliminated true user
  else user.

Definition leaves (out : User.t → bool) (kv : string * User.t) : Prop :=
  User.eliminated kv.2 = false ∧ out kv.2 = true.

Definition stays (out : User.t → bool) (kv : string * User.t) : Prop :=
  User.eliminated kv.2 = false ∧ out kv.2 = false.

(** A pass as three comprehensions over the users. *)
Definition sweep_of (out : User.t → bool) (items : PyDict.dict User.t) : sweep :=
  (PyDict.map_values (mark out) items,
   (filter (leaves out) items).*1,
   User.name <$> (filter (stays out) items).*2).

(** The rule the current tallies select. *)
Definition out_rule (st : DataStore) : User.t → bool :=
  let vote_counts := VoteOption.votes <$> PyDict.values (options st) in
  if is_tie_of vote_counts then tie_out
  else majority_out
         (majority_options_of (default 0 (py_max vote_counts)) (options st)).

(** The option dict a list of names is turned into. *)
Definition fresh_options (names : list string) : PyDict.dict VoteOption.t :=
  imap (λ i name, (option_id i, VoteOption.new (option_id i) name)) names.

(** The history entry a successful [next_round] appends. *)
Definition round_entry (st : DataStore) : HistoryEntry.t :=
  HistoryEntry.mk (round st)
    ((λ opt, (VoteOption.name opt, VoteOption.votes opt))
       <$> PyDict.values (options st))
    (is_tie_of (VoteOption.votes <$> PyDict.values (options st)))
    (User.name <$> (filter (stays (out_rule st)) (users st)).*2)
    (User.name <$> (filter (leaves (out_rule st)) (users st)).*2).

(** The store a successful [next_round] leaves. *)
Definition advanced (new_options : option (list string)) (st : DataStore)
    : DataStore :=
  mkStore
    (PyDict.map_values reset_vote
       (PyDict.map_values (mark (out_rule st)) (users st)))
    (fresh_options (default [] new_options))
    waiting
    (round st + 1)
    (eliminated_users st
       ∪ list_to_set (filter (leaves (out_rule st)) (users st)).*1)
    (round_history st ++ [round_entry st]).

Definition next_round_response (new_options : option (list string))
    (st : DataStore) : NextRoundResponse :=
  let is_tie := is_tie_of (VoteOption.votes <$> PyDict.values (options st)) in
  let n := length (filter (leaves (out_rule st)) (users st)) in
  mkNextRoundResponse true (round st + 1) n
    (active_users (advanced new_options st)) is_tie
    (next_round_message is_tie n).

(** How the user dict may change between two stores when no reset lies
    between them: entries keep their place, token and name, an eliminated
    entry stays eliminated, and new entries are appended. *)
Definition user_kept (kv kv' : string * User.t) : Prop :=
  kv'.1 = kv.1 ∧ User.name kv'.2 = User.name kv.2
  ∧ (User.eliminated kv.2 = true → User.eliminated kv'.2 = true).

Definition users_extend (d d' : PyDict.dict User.t) : Prop :=
  ∃ d1 extra, d' = d1 ++ extra ∧ Forall2 user_kept d d1.

(** ** Sample sessions *)

(** Three participants, two options, ballots 2 to 1, voting closed. *)
Definition session_closed : list Request :=
  [Register "Alice" "t1" "10:00"; Register "Bob" "t2" "10:01";
   Register "Carol" "t3" "10:02"; CreateOptions ["Red"; "Blue"];
   StartVoting; Vote "t1" "option_1"; Vote "t2" "option_1";
   Vote "t3" "option_2"; EndVoting].

(** Two participants, one ballot each on a different option, and a third
    who abstains, voting closed: a tie. *)
Definition session_tie : list Request :=
  [Register "Alice" "t1" "10:00"; Register "Bob" "t2" "10:01";
   Register "Carol" "t3" "10:02"; CreateOptions ["Red"; "Blue"];
   StartVoting; Vote "t1" "option_1"; Vote "t2" "option_2"; EndVoting].

(** Nobody votes before the voting is closed. *)
Definition session_silent : list Request :=
  [Register "Alice" "t1" "10:00"; Register "Bob" "t2" "10:01";
   CreateOptions ["Red"; "Blue"]; StartVoting; EndVoting].

(** ** The other queries of [DataStore] *)

(** [DataStore.get_user_names]: a set comprehension. *)
Definition get_user_names (st : DataStore) : gset string :=
  list_to_set ((λ u, PyStr.lower (User.name u)) <$> PyDict.values (users st)).

(** [DataStore.is_name_taken] *)
Definition is_name_taken (st : DataStore) (name : string) : bool :=
  bool_decide (PyStr.strip (PyStr.lower name) ∈ get_user_names st).

(** ** The read-only endpoints *)

Record ConfigResponse := mkConfigResponse {
  cfg_status : Status;
  cfg_round : Z;
  cfg_options : list VoteOption.t;
  cfg_user_count : nat;
  cfg_voted_count : nat
}.

(** [get_config] *)
Definition get_config (st : DataStore) : ConfigResponse :=
  mkConfigResponse (game_status st) (round st) (PyDict.values (options st))
    (active_users st) (voted_count st).

Record UserStatus := mkUserStatus {
  us_name : string;
  us_voted : bool;
  us_vote_option : option string;
  us_eliminated : bool;
  us_game_status : Status;
  us_round : Z;
  us_options : option (list (string * string))
}.

(** [get_user_status] *)
Definition get_user_status (token : string) : M UserStatus :=
  st ← get_store;
  match PyDict.get token (users st) with
  | None => raise (HTTPException 404 "用户不存在")
  | Some user =>
      mret (mkUserStatus (User.name user) (User.voted user)
              (User.vote_option user) (User.eliminated user)
              (game_status st) (round st) (current_options st))
  end.

Record ResultsResponse := mkResultsResponse {
  res_round : Z;
  res_status : Status;
  res_options : list VoteOption.t;
  res_total_votes : Z;
  res_users : list (string * bool * bool)
}.

(** [get_results] *)
Definition get_results (st : DataStore) : ResultsResponse :=
  mkResultsResponse (round st) (game_status st) (PyDict.values (options st))
    (total_votes st)
    ((λ u, (User.name u, User.voted u, User.eliminated u))
       <$> PyDict.values (users st)).

Record UserRow := mkUserRow {
  row_token : string;
  row_name : string;
  row_voted : bool;
  row_eliminated : bool;
  row_vote_option : option string
}.

(** [get_users]: the rows and [total]. *)
Definition get_users (st : DataStore) : list UserRow * nat :=
  let rows :=
    (λ kv, mkUserRow kv.1 (User.name kv.2) (User.voted kv.2)
             (User.eliminated kv.2) (User.vote_option kv.2)) <$> users st in
  (rows, length rows).

Record HistoryResponse := mkHistoryResponse {
  hist_history : list HistoryEntry.t;
  hist_current_round : Z;
  hist_total_rounds : nat
}.

(** [get_round_history] *)
Definition get_round_history (st : DataStore) : HistoryResponse :=
  mkHistoryResponse (round_history st) (round st) (length (round_history st)).

(** ** The round presets *)

(** What opening and parsing the file gives. *)
Inductive FileRead :=
| FileNotFoundError
| JSONDecodeError
| Loaded (config : Config.t).

(** [load_rounds_config] *)
Definition load_rounds_config (read : FileRead) : Config.t :=
  match read with
  | Loaded config => config
  | FileNotFoundError | JSONDecodeError =>
      Config.mk (Some ∅) (Some ["选项A"; "选项B"])
  end.

(** [config["rounds"][round_key]] when [round_key in config.get("rounds", {})]. *)
Definition round_preset (config : Config.t) (round_num : Z)
    : option Config.Round :=
  let round_key := pretty round_num in
  default ∅ (Config.rounds config) !! round_key.

(** [get_round_options] *)
Definition get_round_options (read : FileRead) (round_num : Z)
    : option (list string) :=
  let config := load_rounds_config read in
  match round_preset config round_num with
  | Some r => Config.options r
  | None => None
  end.

(** [get_round_title] *)
Definition get_round_title (read : FileRead) (round_num : Z) : option string :=
  let config := load_rounds_config read in
  match round_preset config round_num with
  | Some r => Config.title r
  | None => None
  end.

Record RoundConfigResponse := mkRoundConfigResponse {
  rc_round : Z;
  rc_has_preset : bool;
  rc_preset_options : option (list string);
  rc_preset_title : option string;
  rc_message : string
}.

(** Python truthiness of an optional list. *)
Definition truthy_list {A} (l : option (list A)) : bool :=
  match l with
  | Some (_ :: _) => true
  | _ => false
  end.

(** [get_round_config]; the file is read once for the options and once
    for the title. *)
Definition get_round_config (read_options read_title : FileRead)
    (st : DataStore) : RoundConfigResponse :=
  let preset_options := get_round_options read_options (round st) in
  let preset_title := get_round_title read_title (round st) in
  mkRoundConfigResponse (round st)
    (match preset_options with Some _ => true | None => false end)
    preset_options preset_title
    (if truthy_list preset_options then "已加载预设选项"
     else "当前轮次无预设选项，请手动设置").

(** [load_preset_options] together with the file read it starts with. *)
Definition load_preset (read : FileRead) : M (list VoteOption.t) :=
  st ← get_store;
  load_preset_options (get_round_options read (round st)).

(** [[x for i, x in enumerate(l, start) if ok(i) == b]]: the elements of
    [l] at the positions, counted from [start], where [ok] is [b]. *)
Definition pick {A} (ok : nat → bool) (b : bool) (start : nat) (l : list A)
    : list A :=
  (filter (λ ix, ok ix.1 = b) (imap (λ j x, ((start + j)%nat, x)) l)).*2.

(** ** The steps of the store *)

(** The changes a served request can make to the store. *)
Inductive transition (st : DataStore) : DataStore → Prop :=
| tr_same : transition st st
| tr_register name token now :
    token ≠ "" → PyDict.get token (users st) = None →
    UserRegisterRequest name = Some name →
    PyStr.lower name
      ∉ (λ u, PyStr.lower (User.name u)) <$> PyDict.values (users st) →
    transition st
      (with_users (λ us, us ++ [(token, new_user name now)]) st)
| tr_vote token option_id user :
    PyDict.get token (users st) = Some user →
    User.eliminated user = false → User.voted user = false →
    game_status st = voting →
    is_Some (PyDict.get option_id (options st)) →
    transition st
      (mkStore
         (PyDict.alter
            (User.set_vote_option (Some option_id) ∘ User.set_voted true)
            token (users st))
         (PyDict.alter VoteOption.add_vote option_id (options st))
         (game_status st) (round st) (eliminated_users st) (round_history st))
| tr_options names :
    names ≠ [] →
    transition st
      (mkStore (PyDict.map_values reset_vote (users st)) (fresh_options names)
         (game_status st) (round st) (eliminated_users st) (round_history st))
| tr_start :
    options st ≠ [] → transition st (with_game_status voting st)
| tr_end :
    game_status st = voting → transition st (with_game_status result st)
| tr_advance new_options :
    game_status st = result → transition st (advanced new_options st)
| tr_reset : transition st reset.

(** The ballots in play for one option:
    participants in play who voted and chose [option_id]. *)
Definition ballots_for (option_id : string) (st : DataStore) : nat :=
  length (filter (λ u, User.eliminated u = false ∧ User.voted u = true
                       ∧ User.vote_option u = Some option_id)
            (PyDict.values (users st))).

(** The two ballot fields of a participant agree with each other and
    with the option dict. *)
Definition ballot_coherent (st : DataStore) (user : User.t) : Prop :=
  (User.voted user = false ∧ User.vote_option user = None)
  ∨ (User.voted user = true
     ∧ ∃ option_id, User.vote_option user = Some option_id
                    ∧ is_Some (PyDict.get option_id (options st))).

(** ** More sample sessions *)

(** [session_closed] followed by the round advance: round 2, two
    participants eliminated. *)
Definition session_advanced : list Request :=
  session_closed ++ [NextRound (Some ["Left"; "Right"; "Middle"])].

(** Voting under way: two ballots in, one participant undecided. *)
Definition session_voting : list Request :=
  [Register "Alice" "t1" "10:00"; Register "Bob" "t2" "10:01";
   Register "Carol" "t3" "10:02"; CreateOptions ["Red"; "Blue"];
   StartVoting; Vote "t1" "option_1"; Vote "t2" "option_2"].

(** * Properties *)

(** ** Strings *)

Lemma validate_name_strip raw v :
  validate_name raw = Some v → v = PyStr.strip raw ∧ v ≠ "".
Proof.
  unfold validate_name. intros H.
  destruct (PyStr.strip raw) eqn:E; simpl in H; [done|].
  destruct (_ || _); naive_solver.
Qed.

Lemma UserRegisterRequest_strip raw v :
  UserRegisterRequest raw = Some v → v = PyStr.strip raw ∧ v ≠ "".
Proof.
  unfold UserRegisterRequest. case_bool_decide; [|done].
  apply validate_name_strip.
Qed.

(** The comparison key [name.lower().strip()] of a validated name is its
    lower-case form. *)
Lemma name_key_stripped v :
  PyStr.strip v = v → PyStr.strip (PyStr.lower v) = PyStr.lower v.
Proof. intros H. by rewrite PyStr.strip_lower, H. Qed.

(** ** Dicts *)

Section DictFacts.
Context {V : Type}.
Implicit Types (d : PyDict.dict V) (k : string) (v : V).

Lemma dict_get_None k d : PyDict.get k d = None ↔ k ∉ PyDict.keys d.
Proof.
  induction d as [|[k' v'] r IH]; simpl.
  - split; [intros _; apply not_elem_of_nil | done].
  - rewrite not_elem_of_cons, <-IH. case_decide.
    + split; [done | intros [? _]; congruence].
    + split; [intros ?; split; [congruence | done] | by intros [_ ?]].
Qed.

Lemma dict_get_Some_elem k v d : PyDict.get k d = Some v → (k, v) ∈ d.
Proof.
  induction d as [|[k' v'] r IH]; simpl; [done|].
  case_decide; intros ?; simplify_eq; [left | right; auto].
Qed.

Lemma dict_get_is_Some k d : k ∈ PyDict.keys d → is_Some (PyDict.get k d).
Proof.
  intros Hk. destruct (PyDict.get k d) eqn:E; [eauto|].
  by apply dict_get_None in E.
Qed.

Lemma dict_elem_get k v d :
  NoDup (PyDict.keys d) → (k, v) ∈ d → PyDict.get k d = Some v.
Proof.
  induction d as [|[k' v'] r IH]; simpl; intros Hnd Hin.
  - by apply elem_of_nil in Hin.
  - apply NoDup_cons in Hnd as [Hk' Hnd]. apply elem_of_cons in Hin as [?|Hin].
    + simplify_eq. by rewrite decide_True.
    + rewrite decide_False; [auto|]. intros ->. apply Hk'.
      change (k ∈ r.*1). apply list_elem_of_fmap. by exists (k, v).
Qed.

Lemma dict_set_fresh k v d :
  PyDict.get k d = None → PyDict.set k v d = d ++ [(k, v)].
Proof.
  induction d as [|[k' v'] r IH]; simpl; [done|].
  case_decide; [done|]. intros ?. by rewrite IH.
Qed.

Lemma dict_set_nonempty k v d : PyDict.set k v d ≠ [].
Proof. destruct d as [|[k' v'] r]; simpl; [done|]. by case_decide. Qed.

Lemma dict_keys_alter (f : V → V) k d :
  PyDict.keys (PyDict.alter f k d) = PyDict.keys d.
Proof.
  unfold PyDict.keys. induction d as [|[k' v'] r IH]; simpl; [done|].
  case_decide; simpl; [done|]. f_equal. apply IH.
Qed.

Lemma dict_get_alter (f : V → V) k k' d :
  PyDict.get k' (PyDict.alter f k d)
  = if decide (k = k') then f <$> PyDict.get k d else PyDict.get k' d.
Proof.
  induction d as [|[k0 v0] r IH]; simpl; [by case_decide|].
  destruct (decide (k0 = k)) as [->|Hk0]; simpl.
  - by destruct (decide (k = k')).
  - rewrite IH. destruct (decide (k = k')) as [->|Hk]; [|done].
    by rewrite decide_False.
Qed.

Lemma dict_keys_map_values (f : V → V) d :
  PyDict.keys (PyDict.map_values f d) = PyDict.keys d.
Proof.
  unfold PyDict.keys, PyDict.map_values. rewrite <-list_fmap_compose.
  by apply list_fmap_ext.
Qed.

Lemma dict_values_map_values (f : V → V) d :
  PyDict.values (PyDict.map_values f d) = f <$> PyDict.values d.
Proof.
  unfold PyDict.values, PyDict.map_values. rewrite <-!list_fmap_compose.
  by apply list_fmap_ext.
Qed.

Lemma dict_get_map_values (f : V → V) k d :
  PyDict.get k (PyDict.map_values f d) = f <$> PyDict.get k d.
Proof.
  induction d as [|[k' v'] r IH]; simpl; [done|]. by case_decide.
Qed.

Lemma dict_values_app d1 d2 :
  PyDict.values (d1 ++ d2) = PyDict.values d1 ++ PyDict.values d2.
Proof. apply fmap_app. Qed.

Lemma dict_keys_app d1 d2 :
  PyDict.keys (d1 ++ d2) = PyDict.keys d1 ++ PyDict.keys d2.
Proof. apply fmap_app. Qed.

Lemma dict_get_app k d1 d2 :
  PyDict.get k (d1 ++ d2)
  = match PyDict.get k d1 with Some v => Some v | None => PyDict.get k d2 end.
Proof.
  induction d1 as [|[k' v'] r IH]; simpl; [done|]. by case_decide.
Qed.

(** Altering the first entry under [k] as a change of the values list. *)
Lemma dict_values_alter (f : V → V) k v d :
  PyDict.get k d = Some v →
  ∃ l1 l2, PyDict.values d = l1 ++ v :: l2
           ∧ PyDict.values (PyDict.alter f k d) = l1 ++ f v :: l2.
Proof.
  unfold PyDict.values.
  induction d as [|[k' v'] r IH]; csimpl; [done|].
  case_decide; intros Hg; simplify_eq.
  - by exists [], (r.*2).
  - destruct (IH Hg) as (l1 & l2 & E1 & E2).
    exists (v' :: l1), l2. csimpl. by rewrite E1, E2.
Qed.

End DictFacts.

(** ** The handler monad *)

Lemma bind_get {B} (f : DataStore → M B) st : (get_store ≫= f) st = f st st.
Proof. done. Qed.

Lemma bind_modify {B} g (f : unit → M B) st : (modify g ≫= f) st = f tt (g st).
Proof. done. Qed.

Lemma bind_raise {A B} e (f : A → M B) st : (raise e ≫= f) st = (st, Raise e).
Proof. done. Qed.

Lemma bind_ret {A B} (a : A) (f : A → M B) st : (mret a ≫= f) st = f a st.
Proof. done. Qed.

Lemma ret_run {A} (a : A) st : (mret a : M A) st = (st, Return a).
Proof. done. Qed.

Lemma raise_run {A} e st : (raise e : M A) st = (st, Raise e).
Proof. done. Qed.

Lemma modify_run g st : modify g st = (g st, Return tt).
Proof. done. Qed.

Lemma fmap_run {A B} (f : A → B) (m : M A) st :
  (f <$> m) st
  = match m st with
    | (st', Return a) => (st', Return (f a))
    | (st', Raise e) => (st', Raise e)
    end.
Proof. done. Qed.

Lemma bind_run {A B} (f : A → M B) (m : M A) st :
  (m ≫= f) st
  = match m st with
    | (st', Return a) => f a st'
    | (st', Raise e) => (st', Raise e)
    end.
Proof. done. Qed.

Create Rewrite HintDb handler.
#[local] Hint Rewrite @bind_get @bind_modify @bind_raise @bind_ret
  @ret_run @raise_run modify_run : handler.

Ltac handler := autorewrite with handler.

(** ** Ballots *)

(** The store after the three assignments of a successful [submit_vote]. *)
Lemma submit_vote_run token option_id st :
  submit_vote token option_id st
  = match PyDict.get token (users st) with
    | None => (st, Raise (HTTPException 404 "用户不存在，请重新注册"))
    | Some user =>
        if User.eliminated user then
          (st, Raise (HTTPException 403 "您已被淘汰，无法投票"))
        else if User.voted user then
          (st, Raise (HTTPException 400 "您已经投过票了"))
        else if negb (bool_decide (game_status st = voting)) then
          (st, Raise (HTTPException 400 "当前不在投票阶段"))
        else if negb (PyDict.contains option_id (options st)) then
          (st, Raise (HTTPException 400 "无效的选项"))
        else
          (mkStore
             (PyDict.alter (User.set_vote_option (Some option_id)) token
                (PyDict.alter (User.set_voted true) token (users st)))
             (PyDict.alter VoteOption.add_vote option_id (options st))
             (game_status st) (round st) (eliminated_users st)
             (round_history st),
           Return (mkVoteResponse true "投票成功"))
    end.
Proof.
  unfold submit_vote. handler.
  destruct (PyDict.get token (users st)) as [user|]; [|done].
  destruct (User.eliminated user); [done|].
  destruct (User.voted user); [done|].
  destruct (negb _); [done|].
  by destruct (negb _).
Qed.

Lemma dict_alter_compose {V} (f g : V → V) k (d : PyDict.dict V) :
  PyDict.alter g k (PyDict.alter f k d) = PyDict.alter (g ∘ f) k d.
Proof.
  induction d as [|[k' v'] r IH]; simpl; [done|].
  destruct (decide (k' = k)) as [->|Hk]; simpl.
  - by rewrite decide_True.
  - by rewrite decide_False, IH.
Qed.

Lemma dict_alter_nonempty {V} (f : V → V) k (d : PyDict.dict V) :
  d ≠ [] → PyDict.alter f k d ≠ [].
Proof. destruct d as [|[k' v'] r]; simpl; [done|]. by case_decide. Qed.

(** An update that does not change the observation [g] of any value does
    not change the list of observations. *)
Lemma dict_alter_observe {V W} (g : V → W) (f : V → V) k (d : PyDict.dict V) :
  (∀ v, g (f v) = g v) →
  g <$> PyDict.values (PyDict.alter f k d) = g <$> PyDict.values d.
Proof.
  intros Hg. unfold PyDict.values.
  induction d as [|[k' v'] r IH]; csimpl; [done|].
  case_decide; csimpl; [by rewrite Hg | by rewrite IH].
Qed.

Lemma dict_map_values_observe {V W} (g : V → W) (f : V → V) (d : PyDict.dict V) :
  (∀ v, g (f v) = g v) →
  g <$> PyDict.values (PyDict.map_values f d) = g <$> PyDict.values d.
Proof.
  intros Hg. rewrite dict_values_map_values, <-list_fmap_compose.
  apply list_fmap_ext. intros ? v _. apply Hg.
Qed.

Lemma foldr_add_app (l1 l2 : list Z) :
  foldr Z.add 0 (l1 ++ l2) = foldr Z.add 0 l1 + foldr Z.add 0 l2.
Proof. induction l1 as [|x l1 IH]; simpl; lia. Qed.

(** One more ballot on an existing option: the total grows by one. *)
Lemma total_votes_add_vote option_id (opts : PyDict.dict VoteOption.t) :
  PyDict.contains option_id opts = true →
  foldr Z.add 0
    (VoteOption.votes <$>
       PyDict.values (PyDict.alter VoteOption.add_vote option_id opts))
  = foldr Z.add 0 (VoteOption.votes <$> PyDict.values opts) + 1.
Proof.
  unfold PyDict.contains. destruct (PyDict.get option_id opts) as [o|] eqn:E;
    [intros _|done].
  destruct (dict_values_alter VoteOption.add_vote _ _ _ E) as (l1 & l2 & -> & ->).
  rewrite !fmap_app, !fmap_cons, !foldr_add_app. simpl. lia.
Qed.

(** Counting the values that satisfy [P] when one of them starts to. *)
Lemma count_alter_gain {V} (P : V → Prop) `{!∀ v, Decision (P v)}
    (f : V → V) k v (d : PyDict.dict V) :
  PyDict.get k d = Some v → ¬ P v → P (f v) →
  length (filter P (PyDict.values (PyDict.alter f k d)))
  = S (length (filter P (PyDict.values d))).
Proof.
  intros E Hv Hfv.
  destruct (dict_values_alter f _ _ _ E) as (l1 & l2 & -> & ->).
  rewrite !filter_app, !length_app, (filter_cons_True P) by done.
  rewrite (filter_cons_False P) by done. simpl. lia.
Qed.

Lemma submit_vote_Inv token option_id st :
  Inv st → Inv (submit_vote token option_id st).1.
Proof.
  intros [Ho Ht Hk Hn He]. rewrite submit_vote_run.
  destruct (PyDict.get token (users st)) as [user|] eqn:Eu; [|done].
  destruct (User.eliminated user) eqn:Ee; [done|].
  destruct (User.voted user) eqn:Ev; [done|].
  destruct (negb _); [done|].
  destruct (negb _) eqn:Ec; [done|]. apply negb_false_iff in Ec.
  rewrite dict_alter_compose. split; simpl.
  - intros ?. apply dict_alter_nonempty. auto.
  - unfold total_votes, voted_count in *; simpl.
    rewrite total_votes_add_vote by done.
    rewrite (count_alter_gain _ _ _ user); [lia | done | |done].
    rewrite Ev. by intros [? _].
  - by rewrite dict_keys_alter.
  - by rewrite dict_alter_observe.
  - by rewrite dict_keys_alter.
Qed.

(** ** Option sets *)

Lemma option_id_inj i j : option_id i = option_id j → i = j.
Proof.
  unfold option_id. intros H. apply (inj (String.app "option_")) in H.
  apply (inj pretty) in H. lia.
Qed.

Lemma dict_set_Forall {V} (P : V → Prop) k v (d : PyDict.dict V) :
  P v → Forall P (PyDict.values d) → Forall P (PyDict.values (PyDict.set k v d)).
Proof.
  intros Hv. unfold PyDict.values.
  induction d as [|[k' v'] r IH]; csimpl; intros Hd.
  - by constructor.
  - apply Forall_cons in Hd as [? ?].
    case_decide; csimpl; constructor; auto.
Qed.

Lemma install_options_Forall (P : VoteOption.t → Prop) i names d :
  (∀ a b, P (VoteOption.new a b)) →
  Forall P (PyDict.values d) →
  Forall P (PyDict.values (install_options i names d)).
Proof.
  intros HP. revert i d. induction names as [|name r IH]; simpl; intros i d Hd;
    [done|].
  apply IH. by apply dict_set_Forall.
Qed.

Lemma install_options_nonempty i names d :
  d ≠ [] ∨ names ≠ [] → install_options i names d ≠ [].
Proof.
  revert i d. induction names as [|name r IH]; simpl; intros i d H.
  - by destruct H.
  - apply IH. left. apply dict_set_nonempty.
Qed.

(** The enumerate loop never assigns twice to one key: from an empty dict
    it builds one entry per name, in order. *)
Lemma install_options_app i names d :
  (∀ j, (i ≤ j)%nat → PyDict.get (option_id j) d = None) →
  install_options i names d
  = d ++ imap (λ j name,
                 (option_id (i + j), VoteOption.new (option_id (i + j)) name))
              names.
Proof.
  revert i d. induction names as [|name r IH]; simpl; intros i d Hd.
  - by rewrite app_nil_r.
  - rewrite dict_set_fresh by (apply Hd; lia).
    rewrite IH.
    + rewrite <-app_assoc. simpl. rewrite Nat.add_0_r. do 2 f_equal.
      apply imap_ext. intros j x _. simpl.
      by replace (S (i + j))%nat with (i + S j)%nat by lia.
    + intros j Hj. rewrite dict_get_app, Hd by lia. simpl.
      rewrite decide_False; [done|]. intros E%option_id_inj. lia.
Qed.

Lemma install_options_fresh names :
  install_options 0 names [] = fresh_options names.
Proof. by rewrite install_options_app. Qed.

Lemma total_votes_zero (opts : PyDict.dict VoteOption.t) :
  Forall (λ opt, VoteOption.votes opt = 0) (PyDict.values opts) →
  foldr Z.add 0 (VoteOption.votes <$> PyDict.values opts) = 0.
Proof.
  induction 1 as [|opt l Hopt _ IH]; csimpl; [done|]. lia.
Qed.

Lemma fresh_options_votes names :
  Forall (λ opt, VoteOption.votes opt = 0) (PyDict.values (fresh_options names)).
Proof.
  rewrite <-install_options_fresh. apply install_options_Forall; [done|].
  constructor.
Qed.

Lemma fresh_options_nonempty names : names ≠ [] → fresh_options names ≠ [].
Proof. by destruct names. Qed.

(** After the reset loop nobody in play holds a ballot. *)
Lemma voted_count_reset (us : PyDict.dict User.t) :
  filter (λ u, User.voted u = true ∧ User.eliminated u = false)
    (PyDict.values (PyDict.map_values reset_vote us)) = [].
Proof.
  rewrite dict_values_map_values.
  induction (PyDict.values us) as [|u l IH]; csimpl; [done|].
  rewrite filter_cons_False; [done|].
  unfold reset_vote. destruct (User.eliminated u) eqn:E; simpl.
  - rewrite E. by intros [_ ?].
  - by intros [? _].
Qed.

Lemma reset_vote_name u : User.name (reset_vote u) = User.name u.
Proof. unfold reset_vote. by destruct (User.eliminated u). Qed.

Lemma reset_vote_eliminated u :
  User.eliminated (reset_vote u) = User.eliminated u.
Proof. unfold reset_vote. by destruct (User.eliminated u) eqn:E. Qed.

Lemma replace_options_run names st :
  replace_options names st
  = let st' :=
      mkStore (PyDict.map_values reset_vote (users st)) (fresh_options names)
        (game_status st) (round st) (eliminated_users st) (round_history st) in
    (st', Return (PyDict.values (options st'))).
Proof.
  unfold replace_options. handler. simpl. unfold with_options; simpl.
  by rewrite install_options_fresh.
Qed.

Lemma replace_options_Inv names st :
  names ≠ [] → Inv st → Inv (replace_options names st).1.
Proof.
  intros Hne [Ho Ht Hk Hn He]. rewrite replace_options_run. split; simpl.
  - intros _. by apply fresh_options_nonempty.
  - unfold total_votes, voted_count; simpl.
    rewrite voted_count_reset, total_votes_zero; [done|].
    apply fresh_options_votes.
  - by rewrite dict_keys_map_values.
  - rewrite dict_map_values_observe; [done|].
    intros u. by rewrite reset_vote_name.
  - by rewrite dict_keys_map_values.
Qed.

(** ** Registration *)

Lemma find_token_None key (items : PyDict.dict User.t) :
  find_token key items = None
  ↔ key ∉ (λ u, PyStr.lower (User.name u)) <$> PyDict.values items.
Proof.
  unfold PyDict.values.
  induction items as [|[t u] r IH]; csimpl.
  - split; [intros _; apply not_elem_of_nil | done].
  - rewrite not_elem_of_cons, <-IH. case_decide.
    + split; [done | intros [? _]; congruence].
    + split; [intros ?; split; [congruence | done] | by intros [_ ?]].
Qed.

Lemma find_token_Some key t (items : PyDict.dict User.t) :
  find_token key items = Some t →
  ∃ user, (t, user) ∈ items ∧ PyStr.lower (User.name user) = key.
Proof.
  induction items as [|[t' u] r IH]; simpl; [done|].
  case_decide; intros E; simplify_eq.
  - exists u. split; [left | done].
  - destruct (IH E) as (user & ? & ?). exists user. split; [by right | done].
Qed.

Lemma find_token_key key t (items : PyDict.dict User.t) :
  find_token key items = Some t → t ∈ PyDict.keys items.
Proof.
  intros (user & Hin & _)%find_token_Some.
  apply list_elem_of_fmap. by exists (t, user).
Qed.

Lemma register_new_run name token now st :
  register_new name token now st
  = let st' := with_users (PyDict.set token (new_user name now)) st in
    (st', Return (mkRegisterResponse true "姓名验证通过" (Some token)
                    (Some name) (current_options st'))).
Proof. unfold register_new. by handler. Qed.

Lemma register_user_run name token now st :
  register_user name token now st
  = match get_token_by_name st name with
    | Some ((String _ _) as existing_token) =>
        match PyDict.get existing_token (users st) with
        | None => (st, Raise KeyError)
        | Some user =>
            (st, Return (mkRegisterResponse true "欢迎回来"
                           (Some existing_token) (Some (User.name user))
                           (current_options st)))
        end
    | _ => register_new name token now st
    end.
Proof.
  unfold register_user. handler.
  destruct (get_token_by_name st name) as [[|c r]|]; try done.
  by destruct (PyDict.get _ _).
Qed.

(** Appending a participant who holds no ballot. *)
Lemma register_new_Inv name token now st :
  token ≠ "" → PyDict.get token (users st) = None →
  PyStr.lower name ∉ (λ u, PyStr.lower (User.name u)) <$> PyDict.values (users st) →
  Inv st → Inv (register_new name token now st).1.
Proof.
  intros Hne Hfresh Hname [Ho Ht Hk Hn He]. rewrite register_new_run.
  unfold with_users; simpl. rewrite dict_set_fresh by done.
  split; simpl.
  - done.
  - unfold total_votes, voted_count in *; simpl.
    rewrite dict_values_app, filter_app. csimpl.
    rewrite filter_cons_False by (by intros [? _]).
    by rewrite filter_nil, app_nil_r.
  - rewrite dict_keys_app. apply NoDup_app. split_and!; [done| |].
    + intros k Hk1 Hk2%list_elem_of_singleton. subst k.
      by apply dict_get_None in Hfresh.
    + apply NoDup_singleton.
  - rewrite dict_values_app, fmap_app. apply NoDup_app. split_and!; [done| |].
    + intros k Hk1 Hk2%list_elem_of_singleton. by subst k.
    + apply NoDup_singleton.
  - rewrite dict_keys_app. apply Forall_app. split; [done|].
    by constructor.
Qed.

Lemma register_user_Inv name token now st :
  PyStr.strip name = name →
  token ≠ "" → PyDict.get token (users st) = None →
  Inv st → Inv (register_user name token now st).1.
Proof.
  intros Hs Hne Hfresh HI. rewrite register_user_run.
  unfold get_token_by_name. rewrite name_key_stripped by done.
  destruct (find_token _ _) as [[|c r]|] eqn:E.
  - apply find_token_key in E.
    pose proof (inv_nonempty _ HI) as He.
    rewrite Forall_forall in He. by destruct (He _ E).
  - by destruct (PyDict.get (String c r) (users st)).
  - apply register_new_Inv; try done. by apply find_token_None.
Qed.

(** ** The elimination passes *)

Lemma tie_loop_sweep items : tie_loop items = sweep_of tie_out items.
Proof.
  unfold sweep_of, leaves, stays, mark, tie_out.
  induction items as [|[token user] r IH]; [done|].
  simpl tie_loop. rewrite IH. rewrite !filter_cons. csimpl.
  destruct (User.eliminated user) eqn:Ee, (User.voted user) eqn:Ev; simpl;
    repeat case_decide; try done; naive_solver.
Qed.

Lemma majority_loop_sweep majority_options items :
  majority_loop majority_options items
  = sweep_of (majority_out majority_options) items.
Proof.
  unfold sweep_of, leaves, stays, mark, majority_out.
  induction items as [|[token user] r IH]; [done|].
  simpl majority_loop. rewrite IH. rewrite !filter_cons. csimpl.
  destruct (User.eliminated user) eqn:Ee, (User.voted user) eqn:Ev,
    (voted_in user majority_options) eqn:Em; simpl;
    repeat case_decide; try done; naive_solver.
Qed.

Lemma mark_name out u : User.name (mark out u) = User.name u.
Proof. unfold mark. by destruct (User.eliminated u), (out u). Qed.

(** The tokens collected by a pass are keys of the dict, so the name
    lookups that follow it all succeed. *)
Lemma names_of_sweep (g : User.t → User.t) (P : string * User.t → Prop)
    `{!∀ kv, Decision (P kv)} (items : PyDict.dict User.t) :
  NoDup (PyDict.keys items) →
  (∀ u, User.name (g u) = User.name u) →
  names_of (PyDict.map_values g items) (filter P items).*1
  = Some (User.name <$> (filter P items).*2).
Proof.
  intros Hnd Hg. unfold names_of. apply mapM_Some.
  rewrite <-list_fmap_compose. apply Forall2_fmap, Forall_Forall2_diag.
  apply Forall_forall. intros [t u] [_ Hin]%list_elem_of_filter. simpl.
  rewrite dict_get_map_values, (dict_elem_get _ _ _ Hnd Hin). simpl.
  by rewrite Hg.
Qed.

Lemma py_max_nonempty (l : list Z) : l ≠ [] → is_Some (py_max l).
Proof. destruct l; [done | eauto]. Qed.

Lemma commit_sweep_run out st :
  commit_sweep (sweep_of out (users st)) st
  = (with_eliminated_users
       (λ s, s ∪ list_to_set (filter (leaves out) (users st)).*1)
       (with_users (λ _, PyDict.map_values (mark out) (users st)) st),
     Return ((filter (leaves out) (users st)).*1,
             User.name <$> (filter (stays out) (users st)).*2)).
Proof. unfold commit_sweep, sweep_of. by handler. Qed.

Local Arguments install_options : simpl never.

Lemma next_round_run new_options st :
  game_status st = result → options st ≠ [] → NoDup (PyDict.keys (users st)) →
  next_round new_options st
  = (advanced new_options st, Return (next_round_response new_options st)).
Proof.
  intros Hs Ho Hnd. unfold next_round. handler.
  rewrite Hs, bool_decide_eq_true_2 by done.
  change (negb true) with false. cbv iota.
  unfold next_round_response, advanced, round_entry, out_rule.
  set (vote_counts := VoteOption.votes <$> PyDict.values (options st)).
  assert (∃ m, py_max vote_counts = Some m) as [m Hm].
  { apply py_max_nonempty. subst vote_counts.
    destruct (options st); [done|]. by csimpl. }
  rewrite bind_run.
  destruct (is_tie_of vote_counts) eqn:Etie.
  - rewrite tie_loop_sweep, commit_sweep_run. handler. simpl.
    rewrite names_of_sweep by (done || apply mark_name).
    handler. simpl. rewrite length_fmap.
    destruct new_options as [[|n r]|]; handler; simpl; try done.
    unfold with_options; simpl. by rewrite install_options_fresh.
  - rewrite Hm. simpl default.
    rewrite majority_loop_sweep, commit_sweep_run. handler. simpl.
    rewrite names_of_sweep by (done || apply mark_name).
    handler. simpl. rewrite length_fmap.
    destruct new_options as [[|n r]|]; handler; simpl; try done.
    unfold with_options; simpl. by rewrite install_options_fresh.
Qed.

Lemma next_round_wrong_phase new_options st :
  game_status st ≠ result →
  next_round new_options st = (st, Raise (HTTPException 400 "请先结束当前投票")).
Proof.
  intros Hs. unfold next_round. handler.
  by rewrite bool_decide_eq_false_2.
Qed.

Lemma advanced_users new_options st :
  users (advanced new_options st)
  = PyDict.map_values reset_vote
      (PyDict.map_values (mark (out_rule st)) (users st)).
Proof. done. Qed.

Lemma advanced_Inv new_options st : Inv st → Inv (advanced new_options st).
Proof.
  intros [Ho Ht Hk Hn He]. split.
  - done.
  - unfold total_votes, voted_count. rewrite advanced_users.
    rewrite voted_count_reset. simpl.
    rewrite total_votes_zero; [done|]. apply fresh_options_votes.
  - by rewrite advanced_users, !dict_keys_map_values.
  - rewrite advanced_users.
    rewrite dict_map_values_observe by (intros; by rewrite reset_vote_name).
    by rewrite dict_map_values_observe by (intros; by rewrite mark_name).
  - by rewrite advanced_users, !dict_keys_map_values.
Qed.

Lemma next_round_Inv new_options st :
  Inv st → Inv (next_round new_options st).1.
Proof.
  intros HI. destruct (decide (game_status st = result)) as [Hs|Hs].
  - rewrite next_round_run; [by apply advanced_Inv|done| |by destruct HI].
    apply (inv_options _ HI). by rewrite Hs.
  - by rewrite next_round_wrong_phase.
Qed.

(** ** The state machine *)

Lemma start_voting_run st :
  start_voting st
  = match options st with
    | [] => (st, Raise (HTTPException 400 "请先设置投票选项"))
    | _ => (with_game_status voting st, Return tt)
    end.
Proof. unfold start_voting. handler. by destruct (options st). Qed.

Lemma end_voting_run st :
  end_voting st
  = if decide (game_status st = voting)
    then (with_game_status result st, Return (PyDict.values (options st)))
    else (st, Raise (HTTPException 400 "当前不在投票阶段")).
Proof.
  unfold end_voting. handler. case_decide.
  - by rewrite bool_decide_eq_true_2.
  - by rewrite bool_decide_eq_false_2.
Qed.

Lemma start_voting_Inv st : Inv st → Inv (start_voting st).1.
Proof.
  intros HI. rewrite start_voting_run.
  destruct (options st) eqn:E; [done|].
  destruct HI as [Ho Ht Hk Hn He]. split; try done.
  simpl. by rewrite E.
Qed.

Lemma end_voting_Inv st : Inv st → Inv (end_voting st).1.
Proof.
  intros HI. rewrite end_voting_run. case_decide as Hs; [|done].
  destruct HI as [Ho Ht Hk Hn He]. split; try done.
  simpl. intros _. apply Ho. by rewrite Hs.
Qed.

Lemma reset_Inv : Inv reset.
Proof.
  split; simpl; try done; try constructor.
Qed.

Lemma fmap_run_fst {A B} (f : A → B) (m : M A) st : ((f <$> m) st).1 = (m st).1.
Proof. rewrite fmap_run. by destruct (m st) as [? []]. Qed.

Lemma serve_Inv req st : uuid_fresh st req → Inv st → Inv (serve req st).1.
Proof.
  intros Hf HI. destruct req as [name token now|token oid|opts|preset| | |new|];
    simpl.
  - destruct (UserRegisterRequest name) as [v|] eqn:Ev; [|done].
    destruct Hf as [Hne Hfresh].
    apply UserRegisterRequest_strip in Ev as [-> _].
    rewrite fmap_run_fst. apply register_user_Inv; try done.
    apply PyStr.strip_idemp.
  - rewrite fmap_run_fst. by apply submit_vote_Inv.
  - unfold CreateOptionsRequest. case_bool_decide as Hlen; [|done].
    rewrite fmap_run_fst. apply replace_options_Inv; [|done].
    intros ->. simpl in Hlen. lia.
  - rewrite fmap_run_fst. destruct preset as [[|n r]|]; try done.
    by apply replace_options_Inv.
  - rewrite bind_run. pose proof (start_voting_Inv st HI) as H.
    by destruct (start_voting st) as [? []].
  - rewrite fmap_run_fst. by apply end_voting_Inv.
  - rewrite fmap_run_fst. by apply next_round_Inv.
  - apply reset_Inv.
Qed.

Lemma reachable_Inv st : reachable st → Inv st.
Proof.
  induction 1 as [|st req _ IH Hf]; [apply reset_Inv | by apply serve_Inv].
Qed.

Lemma reachable_run reqs st :
  reachable st → admissible reqs st → reachable (run reqs st).
Proof.
  revert st. induction reqs as [|req r IH]; simpl; intros st Hr Ha; [done|].
  destruct Ha as [Hf Ha]. apply IH; [|done]. by constructor.
Qed.

(** ** Tallies *)

Lemma foldl_max_spec (r : list Z) x :
  foldl Z.max x r ∈ x :: r ∧ ∀ y, y ∈ x :: r → y ≤ foldl Z.max x r.
Proof.
  revert x. induction r as [|z r IH]; intros x; simpl.
  - split; [left|]. intros y ->%list_elem_of_singleton. lia.
  - destruct (IH (x `max` z)) as [Hin Hle]. split.
    + apply elem_of_cons in Hin as [->|Hin].
      * destruct (Z.max_spec x z) as [[_ ->]|[_ ->]]; [right; left | left].
      * by do 2 right.
    + intros y [->|[->|Hy]%elem_of_cons]%elem_of_cons.
      * assert (x `max` z ≤ foldl Z.max (x `max` z) r) by (apply Hle; left).
        lia.
      * assert (x `max` z ≤ foldl Z.max (x `max` z) r) by (apply Hle; left).
        lia.
      * apply Hle. by right.
Qed.

Lemma py_max_spec (l : list Z) m :
  py_max l = Some m → m ∈ l ∧ ∀ y, y ∈ l → y ≤ m.
Proof.
  destruct l as [|x r]; simpl; [done|]. intros [= <-]. apply foldl_max_spec.
Qed.

(** [len(set(l)) == 1]: the list is not empty and all its elements are the
    same. *)
Lemma set_size_one (l : list Z) :
  size (list_to_set l : gset Z) = 1%nat
  ↔ ∃ c, l ≠ [] ∧ ∀ x, x ∈ l → x = c.
Proof.
  split.
  - intros (c & Hc)%size_1_elem_of. exists c. split.
    + intros ->. simpl in Hc. set_solver.
    + intros x Hx. assert (x ∈ (list_to_set l : gset Z)) as Hx'
        by by apply elem_of_list_to_set.
      rewrite Hc in Hx'. by apply elem_of_singleton in Hx'.
  - intros (c & Hne & Hall).
    assert ((list_to_set l : gset Z) = {[c]}) as ->; [|apply size_singleton].
    apply set_eq. intros x. rewrite elem_of_list_to_set, elem_of_singleton.
    split; [apply Hall|]. intros ->.
    destruct l as [|y r]; [done|]. rewrite (Hall y) by left. left.
Qed.

Lemma is_tie_of_spec (l : list Z) :
  is_tie_of l = true ↔ l ≠ [] ∧ ∃ c, 0 < c ∧ ∀ x, x ∈ l → x = c.
Proof.
  unfold is_tie_of. rewrite andb_true_iff, bool_decide_eq_true, set_size_one.
  split.
  - intros [(c & Hne & Hall) Hpos]. split; [done|]. exists c. split; [|done].
    destruct l as [|y r]; [done|]. apply bool_decide_eq_true in Hpos.
    rewrite <-(Hall y) by left. done.
  - intros [Hne (c & Hpos & Hall)]. split; [by exists c|].
    destruct l as [|y r]; [done|]. apply bool_decide_eq_true.
    rewrite (Hall y) by left. done.
Qed.

Lemma elem_of_majority_options o m (opts : PyDict.dict VoteOption.t) :
  o ∈ majority_options_of m opts
  ↔ ∃ opt, opt ∈ PyDict.values opts ∧ VoteOption.votes opt = m
           ∧ VoteOption.id opt = o.
Proof.
  unfold majority_options_of. rewrite list_elem_of_fmap. split.
  - intros (opt & -> & [? ?]%list_elem_of_filter). by exists opt.
  - intros (opt & ? & ? & <-). exists opt. split; [done|].
    by apply list_elem_of_filter.
Qed.

Lemma voted_in_spec user (majority_options : list string) :
  voted_in user majority_options = true
  ↔ ∃ o, User.vote_option user = Some o ∧ o ∈ majority_options.
Proof.
  unfold voted_in. destruct (User.vote_option user) as [o|].
  - rewrite bool_decide_eq_true. split; [by exists o | by intros (? & [= <-] & ?)].
  - split; [done | by intros (? & ? & _)].
Qed.

Lemma count_filter_le {A} (P Q : A → Prop) `{!∀ x, Decision (P x)}
    `{!∀ x, Decision (Q x)} (l : list A) :
  (∀ x, P x → Q x) → (length (filter P l) ≤ length (filter Q l))%nat.
Proof.
  intros HPQ. induction l as [|x l IH]; [done|].
  rewrite !filter_cons. destruct (decide (P x)) as [HP|HP].
  - rewrite decide_True by auto. simpl. lia.
  - destruct (decide (Q x)); simpl; lia.
Qed.

(** C8: in every store reachable from the initial one by registrations,
    ballots, option changes, preset loads, phase changes, round advances
    and resets, the tallies of the active options add up to the number of
    participants in play who have voted, hence to no more than the number
    of participants in play. *)
Theorem tally_conservation st :
  reachable st →
  total_votes st = Z.of_nat (voted_count st)
  ∧ total_votes st ≤ Z.of_nat (active_users st).
Proof.
  intros HI%reachable_Inv. pose proof (inv_tally _ HI) as Ht.
  split; [done|]. rewrite Ht. apply inj_le.
  apply count_filter_le. by intros u [_ ?].
Qed.

Lemma reachable_session reqs :
  bool_decide (admissible reqs reset) → reachable (run reqs reset).
Proof.
  intros H%bool_decide_unpack. apply reachable_run; [constructor | done].
Qed.

(** C10: in every reachable store where the phase is voting or result the
    option dict is not empty; so the maximum that [next_round] takes over
    the tallies exists and its [ValueError] is never raised. *)
Theorem options_nonempty_outside_waiting st :
  reachable st →
  (game_status st = voting ∨ game_status st = result → options st ≠ [])
  ∧ (game_status st = result →
       is_Some (py_max (VoteOption.votes <$> PyDict.values (options st))))
  ∧ ∀ new_options, (next_round new_options st).2 ≠ Raise ValueError.
Proof.
  intros HI%reachable_Inv. pose proof (inv_options _ HI) as Ho.
  split_and!.
  - intros [Hs|Hs]; apply Ho; by rewrite Hs.
  - intros Hs. apply py_max_nonempty.
    destruct (options st) eqn:E; [|done]. destruct Ho; [by rewrite Hs | done].
  - intros new_options. destruct (decide (game_status st = result)) as [Hs|Hs].
    + rewrite next_round_run; [done|done| |by destruct HI].
      apply Ho. by rewrite Hs.
    + by rewrite next_round_wrong_phase.
Qed.

Lemma options_max st :
  Inv st → game_status st = result →
  ∃ m, py_max (VoteOption.votes <$> PyDict.values (options st)) = Some m.
Proof.
  intros HI Hs. apply py_max_nonempty.
  pose proof (inv_options _ HI) as Ho.
  destruct (options st) eqn:E; [|done]. destruct Ho; [by rewrite Hs | done].
Qed.

(** ** Advancing the round *)

Lemma next_round_reachable new_options st :
  reachable st → game_status st = result →
  next_round new_options st
  = (advanced new_options st, Return (next_round_response new_options st)).
Proof.
  intros HI%reachable_Inv Hs. apply next_round_run; [done| |by destruct HI].
  apply (inv_options _ HI). by rewrite Hs.
Qed.

Lemma advanced_get new_options st token :
  PyDict.get token (users (advanced new_options st))
  = (λ u, reset_vote (mark (out_rule st) u)) <$> PyDict.get token (users st).
Proof.
  rewrite advanced_users, !dict_get_map_values.
  by destruct (PyDict.get token (users st)).
Qed.

Lemma mark_eliminated out u :
  User.eliminated (mark out u) = User.eliminated u || out u.
Proof.
  unfold mark. destruct (User.eliminated u) eqn:E; [done|].
  by destruct (out u).
Qed.

(** No two entries of the user dict carry the same name. *)
Lemma names_unique (items : PyDict.dict User.t) kv kv' :
  NoDup ((λ u, PyStr.lower (User.name u)) <$> PyDict.values items) →
  kv ∈ items → kv' ∈ items → User.name kv.2 = User.name kv'.2 → kv = kv'.
Proof.
  unfold PyDict.values. rewrite <-list_fmap_compose.
  induction items as [|x r IH]; csimpl; intros Hnd Hin Hin' Hname.
  - by apply elem_of_nil in Hin.
  - apply NoDup_cons in Hnd as [Hx Hnd].
    apply elem_of_cons in Hin as [->|Hin];
      apply elem_of_cons in Hin' as [->|Hin']; try done.
    + destruct Hx. apply list_elem_of_fmap. exists kv'. simpl.
      by rewrite Hname.
    + destruct Hx. apply list_elem_of_fmap. exists kv. simpl.
      by rewrite Hname.
    + by apply IH.
Qed.

(** A participant's name is in a list of selected names exactly when the
    participant is selected. *)
Lemma name_listed (P : string * User.t → Prop) `{!∀ kv, Decision (P kv)}
    (items : PyDict.dict User.t) kv :
  NoDup ((λ u, PyStr.lower (User.name u)) <$> PyDict.values items) →
  kv ∈ items →
  User.name kv.2 ∈ User.name <$> (filter P items).*2 ↔ P kv.
Proof.
  intros Hnd Hin. rewrite <-list_fmap_compose, list_elem_of_fmap. split.
  - intros (kv' & Hname & [HP Hin']%list_elem_of_filter). simpl in Hname.
    by rewrite (names_unique items kv kv').
  - intros HP. exists kv. split; [done|]. by apply list_elem_of_filter.
Qed.

(** What [next_round] decides for a participant in play, in terms of the
    rule selected by the tallies. *)
Lemma advanced_fate new_options st token user :
  Inv st → PyDict.get token (users st) = Some user →
  User.eliminated user = false →
  (out_rule st user = true →
     is_eliminated (advanced new_options st) token
     ∧ User.name user ∈ HistoryEntry.eliminated (round_entry st)
     ∧ User.name user ∉ HistoryEntry.survivors (round_entry st))
  ∧ (out_rule st user = false →
     in_play (advanced new_options st) token
     ∧ User.name user ∈ HistoryEntry.survivors (round_entry st)
     ∧ User.name user ∉ HistoryEntry.eliminated (round_entry st)).
Proof.
  intros HI Hu He. pose proof (inv_names _ HI) as Hn.
  pose proof (dict_get_Some_elem _ _ _ Hu) as Hin.
  unfold is_eliminated, in_play. rewrite advanced_get, Hu. simpl.
  pose proof (name_listed (leaves (out_rule st)) _ _ Hn Hin) as Hl.
  pose proof (name_listed (stays (out_rule st)) _ _ Hn Hin) as Hs.
  unfold leaves, stays in Hl, Hs. simpl in Hl, Hs.
  split; intros Hout.
  - split_and!.
    + eexists. split; [done|].
      by rewrite reset_vote_eliminated, mark_eliminated, He, Hout.
    + by apply Hl.
    + rewrite Hs, Hout. by intros [_ ?].
  - split_and!.
    + eexists. split; [done|].
      by rewrite reset_vote_eliminated, mark_eliminated, He, Hout.
    + by apply Hs.
    + rewrite Hl, Hout. by intros [_ ?].
Qed.

(** C1: when [next_round] runs in the result phase and the tallies are not
    a tie, let [maxVotes] be the highest tally of the active options and
    the majority set be the ids of the options that reach it.  A
    participant in play who did not vote, or whose chosen option is in the
    majority set, is eliminated and listed as eliminated; every other
    participant in play stays in play and is listed as a survivor. *)
Theorem next_round_majority_rule st new_options :
  reachable st → game_status st = result →
  is_tie_of (VoteOption.votes <$> PyDict.values (options st)) = false →
  ∃ maxVotes st' resp entry,
    next_round new_options st = (st', Return resp)
    ∧ round_history st' = round_history st ++ [entry]
    ∧ HistoryEntry.is_tie entry = false
    ∧ (∃ opt, opt ∈ PyDict.values (options st)
              ∧ VoteOption.votes opt = maxVotes)
    ∧ (∀ opt, opt ∈ PyDict.values (options st)
              → VoteOption.votes opt ≤ maxVotes)
    ∧ ∀ token user,
        PyDict.get token (users st) = Some user →
        User.eliminated user = false →
        let in_majority_set :=
          ∃ opt, opt ∈ PyDict.values (options st)
                 ∧ VoteOption.votes opt = maxVotes
                 ∧ User.vote_option user = Some (VoteOption.id opt) in
        (User.voted user = false ∨ in_majority_set →
           is_eliminated st' token
           ∧ User.name user ∈ HistoryEntry.eliminated entry
           ∧ User.name user ∉ HistoryEntry.survivors entry)
        ∧ (¬ (User.voted user = false ∨ in_majority_set) →
           in_play st' token
           ∧ User.name user ∈ HistoryEntry.survivors entry
           ∧ User.name user ∉ HistoryEntry.eliminated entry).
Proof.
  intros Hr Hs Htie. pose proof (reachable_Inv _ Hr) as HI.
  destruct (options_max st HI Hs) as (m & Hm).
  destruct (py_max_spec _ _ Hm) as [Hin Hle].
  exists m, (advanced new_options st), (next_round_response new_options st),
    (round_entry st).
  split_and!.
  - by apply next_round_reachable.
  - done.
  - done.
  - apply list_elem_of_fmap in Hin as (opt & -> & Hopt). by exists opt.
  - intros opt Hopt. apply Hle. apply list_elem_of_fmap. by exists opt.
  - intros token user Hu He in_majority_set.
    assert (out_rule st user = true
            ↔ User.voted user = false ∨ in_majority_set) as Hout.
    { unfold out_rule. rewrite Htie, Hm. simpl. unfold majority_out.
      rewrite orb_true_iff, negb_true_iff, voted_in_spec.
      apply or_iff_compat_l. subst in_majority_set. split.
      - intros (o & Ho & (opt & ? & ? & <-)%elem_of_majority_options).
        by exists opt.
      - intros (opt & ? & ? & ?). exists (VoteOption.id opt).
        split; [done|]. apply elem_of_majority_options. by exists opt. }
    destruct (advanced_fate new_options st token user HI Hu He) as [H1 H2].
    split; intros H.
    + apply H1. by apply Hout.
    + apply H2. destruct (out_rule st user); [|done]. destruct H.
      by apply Hout.
Qed.

Lemma filter_all {A} (P : A → Prop) `{!∀ x, Decision (P x)} (l : list A) :
  (∀ x, x ∈ l → P x) → filter P l = l.
Proof.
  induction l as [|x l IH]; intros Hall; [done|].
  rewrite filter_cons_True by (apply Hall; left).
  rewrite IH; [done|]. intros y Hy. apply Hall. by right.
Qed.

Lemma filter_none {A} (P : A → Prop) `{!∀ x, Decision (P x)} (l : list A) :
  (∀ x, x ∈ l → ¬ P x) → filter P l = [].
Proof.
  induction l as [|x l IH]; intros Hall; [done|].
  rewrite filter_cons_False by (apply Hall; left).
  apply IH. intros y Hy. apply Hall. by right.
Qed.

Lemma tallies_all (opts : PyDict.dict VoteOption.t) c :
  (∀ x, x ∈ VoteOption.votes <$> PyDict.values opts → x = c)
  ↔ (∀ opt, opt ∈ PyDict.values opts → VoteOption.votes opt = c).
Proof.
  split.
  - intros H opt Hopt. apply H. apply list_elem_of_fmap. by exists opt.
  - intros H x (opt & -> & Hopt)%list_elem_of_fmap. by apply H.
Qed.

(** C2: when [next_round] runs in the result phase, the tie flag it
    records is set exactly when all active options have the same tally and
    that tally is greater than 0; and in a tie a participant in play who
    did not vote is eliminated, while one who voted, whatever the option,
    survives. *)
Theorem next_round_tie_rule st new_options :
  reachable st → game_status st = result →
  ∃ st' resp entry,
    next_round new_options st = (st', Return resp)
    ∧ round_history st' = round_history st ++ [entry]
    ∧ nr_is_tie resp = HistoryEntry.is_tie entry
    ∧ (HistoryEntry.is_tie entry = true
       ↔ ∃ c, 0 < c ∧ ∀ opt, opt ∈ PyDict.values (options st)
                             → VoteOption.votes opt = c)
    ∧ (HistoryEntry.is_tie entry = true →
       ∀ token user,
         PyDict.get token (users st) = Some user →
         User.eliminated user = false →
         (User.voted user = false →
            is_eliminated st' token
            ∧ User.name user ∈ HistoryEntry.eliminated entry
            ∧ User.name user ∉ HistoryEntry.survivors entry)
         ∧ (User.voted user = true →
            in_play st' token
            ∧ User.name user ∈ HistoryEntry.survivors entry
            ∧ User.name user ∉ HistoryEntry.eliminated entry)).
Proof.
  intros Hr Hs. pose proof (reachable_Inv _ Hr) as HI.
  exists (advanced new_options st), (next_round_response new_options st),
    (round_entry st).
  split_and!.
  - by apply next_round_reachable.
  - done.
  - done.
  - simpl. rewrite is_tie_of_spec. split.
    + intros [_ (c & Hc & Hall)]. exists c. split; [done|].
      by apply tallies_all.
    + intros (c & Hc & Hall). split.
      * pose proof (inv_options _ HI) as Ho.
        destruct (options st) eqn:E; [|done]. destruct Ho; [by rewrite Hs|done].
      * exists c. split; [done|]. by apply tallies_all.
  - simpl. intros Htie token user Hu He.
    assert (out_rule st user = negb (User.voted user)) as Hout.
    { unfold out_rule. by rewrite Htie. }
    destruct (advanced_fate new_options st token user HI Hu He) as [H1 H2].
    split; intros Hv.
    + apply H1. by rewrite Hout, Hv.
    + apply H2. by rewrite Hout, Hv.
Qed.

(** C3: when [next_round] runs in the result phase and every tally is 0,
    the round is recorded as not a tie, the majority tally is 0, the
    majority set is the whole option set, the survivor list is empty and
    every participant is eliminated afterwards. *)
Theorem next_round_all_zero st new_options :
  reachable st → game_status st = result →
  (∀ opt, opt ∈ PyDict.values (options st) → VoteOption.votes opt = 0) →
  ∃ st' resp entry,
    next_round new_options st = (st', Return resp)
    ∧ round_history st' = round_history st ++ [entry]
    ∧ HistoryEntry.is_tie entry = false
    ∧ nr_is_tie resp = false
    ∧ py_max (VoteOption.votes <$> PyDict.values (options st)) = Some 0
    ∧ majority_options_of 0 (options st)
      = VoteOption.id <$> PyDict.values (options st)
    ∧ HistoryEntry.survivors entry = []
    ∧ (∀ token user,
         PyDict.get token (users st) = Some user →
         User.eliminated user = false →
         is_eliminated st' token
         ∧ User.name user ∈ HistoryEntry.eliminated entry)
    ∧ (∀ token user',
         PyDict.get token (users st') = Some user' →
         User.eliminated user' = true)
    ∧ active_users st' = 0%nat
    ∧ nr_active_users resp = 0%nat.
Proof.
  intros Hr Hs Hzero. pose proof (reachable_Inv _ Hr) as HI.
  set (vote_counts := VoteOption.votes <$> PyDict.values (options st)).
  destruct (options_max st HI Hs) as (m & Hm). fold vote_counts in Hm.
  destruct (py_max_spec _ _ Hm) as [Hin _].
  assert (m = 0) as ->.
  { apply list_elem_of_fmap in Hin as (opt & -> & Hopt). by apply Hzero. }
  assert (is_tie_of vote_counts = false) as Htie.
  { destruct (is_tie_of vote_counts) eqn:E; [|done].
    apply is_tie_of_spec in E as [_ (c & Hc & Hall)].
    specialize (Hall 0 Hin). lia. }
  assert (filter (λ u, User.voted u = true ∧ User.eliminated u = false)
            (PyDict.values (users st)) = []) as Hnone.
  { apply nil_length_inv. pose proof (inv_tally _ HI) as Ht.
    unfold total_votes, voted_count in Ht.
    rewrite total_votes_zero in Ht; [lia|].
    apply Forall_forall. intros opt Hopt. by apply Hzero. }
  assert (∀ kv, kv ∈ users st → User.eliminated kv.2 = false →
                out_rule st kv.2 = true) as Hout.
  { intros [t u] Hkv He. simpl in *. unfold out_rule. fold vote_counts.
    rewrite Htie, Hm. simpl. unfold majority_out.
    destruct (User.voted u) eqn:Ev; [|done].
    destruct (filter_nil_not_elem_of _ _ u Hnone); [done|].
    apply list_elem_of_fmap. by exists (t, u). }
  assert (filter (stays (out_rule st)) (users st) = []) as Hstay.
  { apply filter_none. intros kv Hkv [He Ho].
    rewrite (Hout kv Hkv He) in Ho. done. }
  assert (∀ token user',
            PyDict.get token (users (advanced new_options st)) = Some user' →
            User.eliminated user' = true) as Hgone.
  { intros token user'. rewrite advanced_get.
    destruct (PyDict.get token (users st)) as [u|] eqn:Eu; [|done].
    intros [= <-]. rewrite reset_vote_eliminated, mark_eliminated.
    destruct (User.eliminated u) eqn:Ee; [done|]. simpl.
    apply (Hout (token, u)); [|done]. by apply dict_get_Some_elem. }
  assert (active_users (advanced new_options st) = 0%nat) as Hactive.
  { unfold active_users. rewrite filter_none; [done|].
    intros u (kv & -> & Hkv)%list_elem_of_fmap.
    destruct kv as [t u]. simpl.
    pose proof (inv_tokens _ (advanced_Inv new_options st HI)) as Hnd.
    rewrite (Hgone t u); [done|]. by apply dict_elem_get. }
  exists (advanced new_options st), (next_round_response new_options st),
    (round_entry st).
  split_and!; try done.
  - by apply next_round_reachable.
  - unfold majority_options_of. rewrite filter_all; [done|]. apply Hzero.
  - simpl. by rewrite Hstay.
  - intros token user Hu He.
    destruct (advanced_fate new_options st token user HI Hu He) as [H1 _].
    destruct H1 as (? & ? & _); [|done].
    apply (Hout (token, user)); [|done]. by apply dict_get_Some_elem.
Qed.

Lemma reset_vote_in_play u :
  User.eliminated (reset_vote u) = false →
  User.voted (reset_vote u) = false ∧ User.vote_option (reset_vote u) = None.
Proof.
  unfold reset_vote. destruct (User.eliminated u) eqn:E; [|done].
  rewrite E. done.
Qed.


(** ** Ballots, as the caller sees them *)

Lemma dict_get_alter_eq {V} (f : V → V) k (d : PyDict.dict V) :
  PyDict.get k (PyDict.alter f k d) = f <$> PyDict.get k d.
Proof. rewrite dict_get_alter. by rewrite decide_True. Qed.

Lemma dict_get_alter_ne {V} (f : V → V) k k' (d : PyDict.dict V) :
  k ≠ k' → PyDict.get k' (PyDict.alter f k d) = PyDict.get k' d.
Proof. intros. rewrite dict_get_alter. by rewrite decide_False. Qed.

(** C7: [submit_vote] fails with 404 when the token is unknown, else with
    403 when the participant is eliminated, else with 400 (already voted)
    when the participant has voted, else with 400 (not in the voting phase)
    when the phase is not voting, else with 400 (invalid option) when the
    option is not in the active set.  The five failures are distinct
    exceptions and none of them changes the store.  Otherwise the call
    succeeds: the tally of that option, and of no other, grows by 1; the
    participant, and no other, is marked as having voted for that option;
    nothing else changes; and a further ballot of the same participant
    fails as already voted, leaving the tallies as they are. *)
Theorem submit_vote_outcomes st token option_id :
  let not_found := HTTPException 404 "用户不存在，请重新注册" in
  let forbidden := HTTPException 403 "您已被淘汰，无法投票" in
  let conflict := HTTPException 400 "您已经投过票了" in
  let invalid_state := HTTPException 400 "当前不在投票阶段" in
  let invalid_input := HTTPException 400 "无效的选项" in
  NoDup [not_found; forbidden; conflict; invalid_state; invalid_input]
  ∧ (PyDict.get token (users st) = None →
     submit_vote token option_id st = (st, Raise not_found))
  ∧ ∀ user, PyDict.get token (users st) = Some user →
      (User.eliminated user = true →
       submit_vote token option_id st = (st, Raise forbidden))
      ∧ (User.eliminated user = false → User.voted user = true →
         submit_vote token option_id st = (st, Raise conflict))
      ∧ (User.eliminated user = false → User.voted user = false →
         game_status st ≠ voting →
         submit_vote token option_id st = (st, Raise invalid_state))
      ∧ (User.eliminated user = false → User.voted user = false →
         game_status st = voting →
         PyDict.get option_id (options st) = None →
         submit_vote token option_id st = (st, Raise invalid_input))
      ∧ (User.eliminated user = false → User.voted user = false →
         game_status st = voting →
         is_Some (PyDict.get option_id (options st)) →
         ∃ st',
           submit_vote token option_id st
           = (st', Return (mkVoteResponse true "投票成功"))
           ∧ PyDict.keys (options st') = PyDict.keys (options st)
           ∧ (∀ o, PyDict.get o (options st')
                   = (if decide (option_id = o) then VoteOption.add_vote
                      else id) <$> PyDict.get o (options st))
           ∧ total_votes st' = total_votes st + 1
           ∧ PyDict.keys (users st') = PyDict.keys (users st)
           ∧ PyDict.get token (users st')
             = Some (User.mk (User.name user) true (Some option_id) false
                       (User.joined_at user))
           ∧ (∀ t, t ≠ token →
                PyDict.get t (users st') = PyDict.get t (users st))
           ∧ game_status st' = game_status st
           ∧ round st' = round st
           ∧ eliminated_users st' = eliminated_users st
           ∧ round_history st' = round_history st
           ∧ ∀ option_id', submit_vote token option_id' st'
                           = (st', Raise conflict)).
Proof.
  intros not_found forbidden conflict invalid_state invalid_input.
  split; [|split].
  - subst not_found forbidden conflict invalid_state invalid_input.
    apply (bool_decide_unpack _). by vm_compute.
  - intros Hu. by rewrite submit_vote_run, Hu.
  - intros user Hu. rewrite submit_vote_run, Hu. split_and!.
    + by intros ->.
    + by intros -> ->.
    + intros -> -> Hs. by rewrite bool_decide_eq_false_2.
    + intros -> -> Hs Ho. rewrite bool_decide_eq_true_2 by done.
      unfold PyDict.contains. by rewrite Ho.
    + intros He Hv Hs [opt Ho]. rewrite He, Hv.
      rewrite bool_decide_eq_true_2 by done.
      unfold PyDict.contains. rewrite Ho. simpl.
      rewrite dict_alter_compose.
      eexists. split; [done|]. simpl. split_and!; try done.
      * by rewrite dict_keys_alter.
      * intros o. rewrite dict_get_alter. case_decide; [by subst|].
        by destruct (PyDict.get o (options st)).
      * unfold total_votes. simpl. apply total_votes_add_vote.
        unfold PyDict.contains. by rewrite Ho.
      * by rewrite dict_keys_alter.
      * rewrite dict_get_alter_eq, Hu. simpl.
        unfold User.set_vote_option, User.set_voted. simpl. by rewrite He.
      * intros t Ht. by rewrite dict_get_alter_ne.
      * intros option_id'. rewrite submit_vote_run. simpl.
        rewrite dict_get_alter_eq, Hu. simpl. by rewrite He.
Qed.

(** ** The phase guard missing from [start_voting] *)

(** [end_voting] outside the voting phase and [next_round] outside the
    result phase fail with 400 and leave the store as it is. *)
Lemma guarded_transitions st new_options :
  (game_status st ≠ voting →
   end_voting st = (st, Raise (HTTPException 400 "当前不在投票阶段")))
  ∧ (game_status st ≠ result →
     next_round new_options st
     = (st, Raise (HTTPException 400 "请先结束当前投票")))
  ∧ (options st = [] →
     start_voting st = (st, Raise (HTTPException 400 "请先设置投票选项"))).
Proof.
  split_and!.
  - intros Hs. rewrite end_voting_run. by rewrite decide_False.
  - apply next_round_wrong_phase.
  - intros Ho. by rewrite start_voting_run, Ho.
Qed.

(** ** What survives a run without reset *)

Lemma user_kept_refl kv : user_kept kv kv.
Proof. by split_and!. Qed.

Lemma users_extend_refl d : users_extend d d.
Proof.
  exists d, []. split; [by rewrite app_nil_r|].
  apply Forall_Forall2_diag, Forall_forall. intros. apply user_kept_refl.
Qed.

Lemma users_extend_trans d1 d2 d3 :
  users_extend d1 d2 → users_extend d2 d3 → users_extend d1 d3.
Proof.
  intros (a & x & -> & Ha) (b & y & -> & Hb).
  apply Forall2_app_inv_l in Hb as (b1 & b2 & Hb1 & Hb2 & ->).
  exists b1, (b2 ++ y). split; [by rewrite app_assoc|].
  eapply Forall2_trans; [|done..].
  intros k1 k2 k3 (? & ? & ?) (? & ? & ?). split_and!; [congruence..|auto].
Qed.

Lemma users_extend_app d kv : users_extend d (d ++ [kv]).
Proof.
  exists d, [kv]. split; [done|].
  apply Forall_Forall2_diag, Forall_forall. intros. apply user_kept_refl.
Qed.

Lemma users_extend_map_values f d :
  (∀ u, User.name (f u) = User.name u) →
  (∀ u, User.eliminated u = true → User.eliminated (f u) = true) →
  users_extend d (PyDict.map_values f d).
Proof.
  intros Hn He. exists (PyDict.map_values f d), [].
  split; [by rewrite app_nil_r|].
  unfold PyDict.map_values. apply Forall2_fmap_r, Forall_Forall2_diag.
  apply Forall_forall. intros [t u] _. split_and!; simpl; auto.
Qed.

Lemma users_extend_alter f k d :
  (∀ u, User.name (f u) = User.name u) →
  (∀ u, User.eliminated u = true → User.eliminated (f u) = true) →
  users_extend d (PyDict.alter f k d).
Proof.
  intros Hn He. exists (PyDict.alter f k d), [].
  split; [by rewrite app_nil_r|].
  induction d as [|[t u] r IH]; simpl; [constructor|].
  case_decide; constructor; try done.
  - split_and!; simpl; auto.
  - apply Forall_Forall2_diag, Forall_forall. intros. apply user_kept_refl.
Qed.

Lemma users_extend_get d d' token user :
  users_extend d d' → PyDict.get token d = Some user →
  ∃ user', PyDict.get token d' = Some user'
           ∧ User.name user' = User.name user
           ∧ (User.eliminated user = true → User.eliminated user' = true).
Proof.
  intros (d1 & extra & -> & HF) Hu.
  cut (∃ user', PyDict.get token d1 = Some user'
                ∧ User.name user' = User.name user
                ∧ (User.eliminated user = true → User.eliminated user' = true)).
  { intros (user' & Hu' & ?). exists user'. by rewrite dict_get_app, Hu'. }
  induction HF as [|[t u] [t' u'] r r' (Ht & Hn & He) _ IH]; simpl in *;
    [done|].
  subst t'. case_decide; [|by apply IH].
  simplify_eq. by exists u'.
Qed.

Lemma users_extend_find_token d d' key token :
  users_extend d d' → find_token key d = Some token →
  find_token key d' = Some token.
Proof.
  intros (d1 & extra & -> & HF) Hk.
  cut (find_token key d1 = Some token).
  { clear. induction d1 as [|[t u] r IH]; simpl; [done|].
    by case_decide. }
  induction HF as [|[t u] [t' u'] r r' (Ht & Hn & He) _ IH]; simpl in *;
    [done|].
  subst t'. rewrite Hn. case_decide; [done | by apply IH].
Qed.

(** One request other than a reset: the user dict is extended. *)
Lemma serve_users_extend req st :
  Inv st → req ≠ Reset → uuid_fresh st req →
  users_extend (users st) (users (serve req st).1).
Proof.
  intros HI Hreq Hf.
  destruct req as [name token now|token oid|opts|preset| | |new|]; simpl.
  - destruct (UserRegisterRequest name) as [v|]; [|apply users_extend_refl].
    rewrite fmap_run_fst, register_user_run. destruct Hf as [_ Hfresh].
    destruct (get_token_by_name st v) as [[|c r]|].
    + rewrite register_new_run. simpl. rewrite dict_set_fresh by done.
      apply users_extend_app.
    + destruct (PyDict.get (String c r) (users st)); apply users_extend_refl.
    + rewrite register_new_run. simpl. rewrite dict_set_fresh by done.
      apply users_extend_app.
  - rewrite fmap_run_fst, submit_vote_run.
    destruct (PyDict.get token (users st)) as [user|];
      [|apply users_extend_refl].
    destruct (User.eliminated user); [apply users_extend_refl|].
    destruct (User.voted user); [apply users_extend_refl|].
    destruct (negb _); [apply users_extend_refl|].
    destruct (negb _); [apply users_extend_refl|].
    simpl. rewrite dict_alter_compose. by apply users_extend_alter.
  - destruct (CreateOptionsRequest opts); [|apply users_extend_refl].
    rewrite fmap_run_fst. unfold create_options. rewrite replace_options_run.
    simpl. apply users_extend_map_values.
    + apply reset_vote_name.
    + intros u. by rewrite reset_vote_eliminated.
  - rewrite fmap_run_fst.
    destruct preset as [[|n r]|]; try apply users_extend_refl.
    unfold load_preset_options. rewrite replace_options_run.
    simpl. apply users_extend_map_values.
    + apply reset_vote_name.
    + intros u. by rewrite reset_vote_eliminated.
  - rewrite bind_run, start_voting_run.
    destruct (options st); apply users_extend_refl.
  - rewrite fmap_run_fst, end_voting_run. case_decide; apply users_extend_refl.
  - rewrite fmap_run_fst.
    destruct (decide (game_status st = result)) as [Hs|Hs].
    + rewrite next_round_run; [|done| |by destruct HI].
      2: { apply (inv_options _ HI). by rewrite Hs. }
      simpl. eapply users_extend_trans; apply users_extend_map_values.
      * apply mark_name.
      * intros u Hu. by rewrite mark_eliminated, Hu.
      * apply reset_vote_name.
      * intros u. by rewrite reset_vote_eliminated.
    + rewrite next_round_wrong_phase by done. apply users_extend_refl.
  - done.
Qed.

(** Only [next_round] and the reset write to the history. *)
Lemma serve_history_same req st :
  (∀ new_options, req ≠ NextRound new_options) → req ≠ Reset →
  round_history (serve req st).1 = round_history st.
Proof.
  intros Hnr Hreq.
  destruct req as [name token now|token oid|opts|preset| | |new|]; simpl.
  - destruct (UserRegisterRequest name) as [v|]; [|done].
    rewrite fmap_run_fst, register_user_run.
    destruct (get_token_by_name st v) as [[|c r]|];
      rewrite ?register_new_run; try done.
    by destruct (PyDict.get (String c r) (users st)).
  - rewrite fmap_run_fst, submit_vote_run.
    destruct (PyDict.get token (users st)) as [user|]; [|done].
    destruct (User.eliminated user); [done|].
    destruct (User.voted user); [done|].
    destruct (bool_decide (game_status st = voting)); [|done].
    by destruct (PyDict.contains oid (options st)).
  - destruct (CreateOptionsRequest opts); [|done].
    rewrite fmap_run_fst. unfold create_options. by rewrite replace_options_run.
  - rewrite fmap_run_fst. by destruct preset as [[|n r]|].
  - rewrite bind_run, start_voting_run. by destruct (options st).
  - rewrite fmap_run_fst, end_voting_run. by case_decide.
  - by destruct (Hnr new).
  - done.
Qed.

(** One request other than a reset: the history grows by at most the entry
    of the round just advanced, and that entry names nobody who was
    eliminated before. *)
Lemma serve_history req st :
  Inv st → req ≠ Reset →
  ∃ new,
    round_history (serve req st).1 = round_history st ++ new
    ∧ ∀ e token user,
        e ∈ new → PyDict.get token (users st) = Some user →
        User.eliminated user = true →
        (User.name user ∉ HistoryEntry.survivors e)
        ∧ (User.name user ∉ HistoryEntry.eliminated e).
Proof.
  intros HI Hreq.
  assert ((∀ new_options, req ≠ NextRound new_options)
          ∨ ∃ new_options, req = NextRound new_options) as [Hnr|[new ->]].
  { destruct req; try (by left); right; by eexists. }
  - exists []. split.
    + rewrite app_nil_r. by apply serve_history_same.
    + intros e ? ? He. by apply elem_of_nil in He.
  - simpl. rewrite fmap_run_fst.
    destruct (decide (game_status st = result)) as [Hs|Hs].
    + rewrite next_round_run; [|done| |by destruct HI].
      2: { apply (inv_options _ HI). by rewrite Hs. }
      exists [round_entry st]. split; [done|].
      intros e token user ->%list_elem_of_singleton Hu He.
      pose proof (dict_get_Some_elem _ _ _ Hu) as Hin.
      pose proof (inv_names _ HI) as Hn. simpl.
      rewrite (name_listed (stays (out_rule st)) _ (token, user) Hn Hin).
      rewrite (name_listed (leaves (out_rule st)) _ (token, user) Hn Hin).
      unfold stays, leaves. simpl. rewrite He. split; by intros [? _].
    + rewrite next_round_wrong_phase by done. exists []. split.
      * by rewrite app_nil_r.
      * intros e ? ? He. by apply elem_of_nil in He.
Qed.

(** A run without reset extends the user dict and stays among the
    reachable stores. *)
Lemma run_users_extend reqs st :
  reachable st → Reset ∉ reqs → admissible reqs st →
  users_extend (users st) (users (run reqs st)) ∧ reachable (run reqs st).
Proof.
  revert st. induction reqs as [|req r IH]; simpl; intros st Hr Hno Ha.
  - split; [apply users_extend_refl | done].
  - destruct Ha as [Hf Ha]. apply not_elem_of_cons in Hno as [Hreq Hno].
    destruct (IH (serve req st).1) as [He Hr']; [by constructor|done..|].
    split; [|done]. eapply users_extend_trans; [|done].
    apply serve_users_extend; [by apply reachable_Inv | done..].
Qed.

(** C9: once a participant is eliminated, then along every run of
    requests that contains no reset the participant stays eliminated,
    every ballot of the participant fails with 403 and leaves the store as
    it is, and no history entry appended later carries the participant's
    name among the survivors or among the eliminated. *)
Theorem elimination_is_monotonic reqs st token user :
  reachable st →
  PyDict.get token (users st) = Some user → User.eliminated user = true →
  Reset ∉ reqs → admissible reqs st →
  (∃ user', PyDict.get token (users (run reqs st)) = Some user'
            ∧ User.eliminated user' = true
            ∧ User.name user' = User.name user)
  ∧ (∀ option_id,
       submit_vote token option_id (run reqs st)
       = (run reqs st, Raise (HTTPException 403 "您已被淘汰，无法投票")))
  ∧ ∃ later,
      round_history (run reqs st) = round_history st ++ later
      ∧ ∀ e, e ∈ later →
          (User.name user ∉ HistoryEntry.survivors e)
          ∧ (User.name user ∉ HistoryEntry.eliminated e).
Proof.
  revert st user. induction reqs as [|req r IH]; simpl;
    intros st user Hr Hu He Hno Ha.
  - split_and!.
    + by exists user.
    + intros option_id. by rewrite submit_vote_run, Hu, He.
    + exists []. split; [by rewrite app_nil_r|].
      intros e H. by apply elem_of_nil in H.
  - destruct Ha as [Hf Ha]. apply not_elem_of_cons in Hno as [Hreq Hno].
    apply not_eq_sym in Hreq. pose proof (reachable_Inv _ Hr) as HI.
    destruct (users_extend_get _ _ _ _
                (serve_users_extend req st HI Hreq Hf) Hu)
      as (u1 & Hu1 & Hn1 & He1).
    destruct (serve_history req st HI Hreq) as (new & Hnew & Hnames).
    destruct (IH (serve req st).1 u1) as (Hkeep & Hvote & later & Hlater & Hl);
      [by constructor | done | by apply He1 | done | done |].
    split_and!.
    + destruct Hkeep as (u' & ? & ? & ?). exists u'. split_and!; congruence.
    + done.
    + exists (new ++ later). split; [by rewrite Hlater, Hnew, app_assoc|].
      intros e [Hin|Hin]%elem_of_app.
      * by apply (Hnames e token user).
      * rewrite <-Hn1. by apply Hl.
Qed.

(** ** Registration, as the caller sees it *)

Lemma find_token_app key (d e : PyDict.dict User.t) :
  find_token key (d ++ e)
  = match find_token key d with
    | Some t => Some t
    | None => find_token key e
    end.
Proof. induction d as [|[t u] r IH]; simpl; [done|]. by case_decide. Qed.

(** A name that is already registered: the stored token comes back and
    the store is left as it is. *)
Lemma register_existing st v token now T :
  Inv st → PyStr.strip v = v →
  find_token (PyStr.lower v) (users st) = Some T →
  ∃ r, register_user v token now st = (st, Return r) ∧ reg_token r = Some T.
Proof.
  intros HI Hv HT. rewrite register_user_run. unfold get_token_by_name.
  rewrite name_key_stripped, HT by done.
  pose proof (find_token_key _ _ _ HT) as Hkey.
  destruct (dict_get_is_Some _ _ Hkey) as [user Hu].
  pose proof (inv_nonempty _ HI) as Hne. rewrite Forall_forall in Hne.
  specialize (Hne _ Hkey). destruct T as [|c r]; [done|].
  rewrite Hu. by eexists.
Qed.

Lemma run_app reqs1 reqs2 st :
  run (reqs1 ++ reqs2) st = run reqs2 (run reqs1 st).
Proof. revert st. induction reqs1 as [|req r IH]; simpl; [done|]. auto. Qed.

Lemma admissible_app reqs1 reqs2 st :
  admissible (reqs1 ++ reqs2) st
  ↔ admissible reqs1 st ∧ admissible reqs2 (run reqs1 st).
Proof.
  revert st. induction reqs1 as [|req r IH]; simpl; intros st.
  - split; [by split | by intros [_ ?]].
  - rewrite IH. split.
    + by intros (? & ? & ?).
    + by intros ((? & ?) & ?).
Qed.

(** A request adds at most one key to the user dict: the string drawn
    for it. *)
Lemma serve_keys req st :
  Inv st → uuid_fresh st req →
  PyDict.keys (users (serve req st).1) ⊆ PyDict.keys (users st) ++ draws [req].
Proof.
  intros HI Hf.
  destruct req as [name token now|token oid|opts|preset| | |new|]; simpl;
    rewrite ?app_nil_r.
  - destruct (UserRegisterRequest name) as [v|];
      [|by apply list_subseteq_app_l].
    rewrite fmap_run_fst, register_user_run. destruct Hf as [_ Hfresh].
    destruct (get_token_by_name st v) as [[|c r]|].
    + rewrite register_new_run. simpl. by rewrite dict_set_fresh, dict_keys_app.
    + destruct (PyDict.get (String c r) (users st));
        by apply list_subseteq_app_l.
    + rewrite register_new_run. simpl. by rewrite dict_set_fresh, dict_keys_app.
  - rewrite fmap_run_fst, submit_vote_run.
    destruct (PyDict.get token (users st)) as [user|]; [|done].
    destruct (User.eliminated user); [done|].
    destruct (User.voted user); [done|].
    destruct (negb _); [done|].
    destruct (negb _); [done|].
    simpl. by rewrite !dict_keys_alter.
  - destruct (CreateOptionsRequest opts); [|done].
    rewrite fmap_run_fst. unfold create_options. rewrite replace_options_run.
    simpl. by rewrite dict_keys_map_values.
  - rewrite fmap_run_fst.
    destruct preset as [[|n r]|]; try done.
    unfold load_preset_options. rewrite replace_options_run.
    simpl. by rewrite dict_keys_map_values.
  - rewrite bind_run, start_voting_run. by destruct (options st).
  - rewrite fmap_run_fst, end_voting_run. by case_decide.
  - rewrite fmap_run_fst.
    destruct (decide (game_status st = result)) as [Hs|Hs].
    + rewrite next_round_run; [|done| |by destruct HI].
      2: { apply (inv_options _ HI). by rewrite Hs. }
      simpl. by rewrite !dict_keys_map_values.
    + by rewrite next_round_wrong_phase.
  - apply list_subseteq_nil.
Qed.

(** When [uuid.uuid4()] never repeats itself, every string it returns is
    new to the store: at each registration the string drawn is the key of
    no participant, and the keys of the store are strings drawn
    earlier. *)
Lemma uuid_distinct_run reqs :
  uuid_distinct reqs →
  admissible reqs reset
  ∧ PyDict.keys (users (run reqs reset)) ⊆ draws reqs.
Proof.
  induction reqs as [|req reqs IH] using rev_ind.
  - intros _. by split.
  - intros [Hnd Hne]. unfold draws in Hnd, Hne.
    rewrite omap_app in Hnd, Hne.
    apply NoDup_app in Hnd as (Hnd1 & Hdisj & _).
    apply Forall_app in Hne as [Hne1 Hne2].
    destruct IH as [Ha Hk]; [by split|].
    assert (reachable (run reqs reset)) as Hr
      by (apply reachable_run; [constructor | done]).
    assert (uuid_fresh (run reqs reset) req) as Hf.
    { destruct req as [name token now| | | | | | |]; simpl; try done.
      simpl in Hne2, Hdisj. split.
      - by inversion Hne2.
      - apply dict_get_None. intros Hin. apply Hk in Hin.
        apply (Hdisj _ Hin). by left. }
    split.
    + apply admissible_app. by split.
    + rewrite run_app. simpl. intros k Hin.
      apply serve_keys in Hin; [|by apply reachable_Inv | done].
      unfold draws. rewrite omap_app.
      apply elem_of_app in Hin as [Hin|Hin]; apply elem_of_app;
        [left; by apply Hk | by right].
Qed.

(** Two registrations under the same normalized name, in a store the
    program can be in. *)
Lemma register_twice st raw1 token1 now1 reqs raw2 token2 now2 :
  reachable st →
  is_Some (UserRegisterRequest raw1) → is_Some (UserRegisterRequest raw2) →
  PyStr.lower (PyStr.strip raw2) = PyStr.lower (PyStr.strip raw1) →
  uuid_fresh st (Register raw1 token1 now1) →
  Reset ∉ reqs →
  admissible reqs (serve (Register raw1 token1 now1) st).1 →
  let st1 := (serve (Register raw1 token1 now1) st).1 in
  let st2 := run reqs st1 in
  let taken :=
    PyStr.lower (PyStr.strip raw1)
    ∈ (λ u, PyStr.lower (User.name u)) <$> PyDict.values (users st) in
  ∃ T r1 r2,
    serve (Register raw1 token1 now1) st = (st1, Return (RegisterOk r1))
    ∧ reg_token r1 = Some T
    ∧ serve (Register raw2 token2 now2) st2 = (st2, Return (RegisterOk r2))
    ∧ reg_token r2 = Some T
    ∧ (taken → st1 = st ∧ T ∈ PyDict.keys (users st))
    ∧ (¬ taken →
       T = token1
       ∧ users st1
         = users st ++ [(token1, new_user (PyStr.strip raw1) now1)]).
Proof.
  intros Hr [v1 Hv1] [v2 Hv2] Hsame Hf Hno Ha st1 st2 taken.
  pose proof (reachable_Inv _ Hr) as HI.
  assert (reachable st1) as Hr1 by by constructor.
  pose proof (UserRegisterRequest_strip _ _ Hv1) as [-> _].
  pose proof (UserRegisterRequest_strip _ _ Hv2) as [-> _].
  set (v1 := PyStr.strip raw1) in *. set (v2 := PyStr.strip raw2) in *.
  assert (PyStr.strip v1 = v1) as Hs1 by apply PyStr.strip_idemp.
  assert (PyStr.strip v2 = v2) as Hs2 by apply PyStr.strip_idemp.
  assert (∃ T r1,
    serve (Register raw1 token1 now1) st = (st1, Return (RegisterOk r1))
    ∧ reg_token r1 = Some T
    ∧ find_token (PyStr.lower v1) (users st1) = Some T
    ∧ (taken → st1 = st ∧ T ∈ PyDict.keys (users st))
    ∧ (¬ taken →
       T = token1
       ∧ users st1 = users st ++ [(token1, new_user v1 now1)]))
    as (T & r1 & Hrun1 & Htok1 & Hfind & Htaken & Hfresh).
  { subst st1. simpl. rewrite Hv1, fmap_run.
    destruct (find_token (PyStr.lower v1) (users st)) as [T|] eqn:E.
    - destruct (register_existing st v1 token1 now1 T HI Hs1 E)
        as (r1 & -> & Htok). simpl.
      exists T, r1. split_and!; try done.
      + intros _. split; [done|]. by apply (find_token_key (PyStr.lower v1)).
      + intros Hnt. destruct Hnt. apply dec_stable. intros Hn.
        apply find_token_None in Hn. congruence.
    - apply find_token_None in E as Hnot.
      rewrite register_user_run. unfold get_token_by_name.
      rewrite name_key_stripped, E by done.
      rewrite register_new_run. simpl. destruct Hf as [Hne Hget].
      rewrite dict_set_fresh by done.
      eexists token1, _. split_and!; try done.
      rewrite find_token_app, E. simpl. by rewrite decide_True. }
  destruct (run_users_extend reqs st1 Hr1 Hno Ha) as [Hext Hr2].
  fold st2 in Hext, Hr2.
  pose proof (users_extend_find_token _ _ _ _ Hext Hfind) as Hfind2.
  rewrite <-Hsame in Hfind2.
  destruct (register_existing st2 v2 token2 now2 T
              (reachable_Inv _ Hr2) Hs2 Hfind2) as (r2 & Hrun2 & Htok2).
  exists T, r1, r2. split_and!; try done.
  simpl. by rewrite Hv2, fmap_run, Hrun2.
Qed.

(** C5: registration is idempotent on the normalized name and hands out
    unique tokens.  Take any run of requests from the initial store in
    which [uuid.uuid4()] returns no empty string and never the same
    string twice, a registration in it, and a second registration later
    on whose name agrees with the first after trimming and case folding,
    with no reset in between.  Both return the same token, and the second
    one leaves the store as it is, whatever [uuid.uuid4()] returns for
    it.  When no participant holds the normalized name yet, the first one
    appends exactly one participant, whose token is the string just
    drawn, and that string is the key of no participant registered before;
    otherwise the first one leaves the store as it is too and the token is
    that of a participant registered before. *)
Theorem register_idempotent before raw1 token1 now1 between raw2 token2 now2 :
  uuid_distinct (before ++ Register raw1 token1 now1 :: between) →
  Reset ∉ between →
  is_Some (UserRegisterRequest raw1) → is_Some (UserRegisterRequest raw2) →
  PyStr.lower (PyStr.strip raw2) = PyStr.lower (PyStr.strip raw1) →
  let st := run before reset in
  let st1 := (serve (Register raw1 token1 now1) st).1 in
  let st2 := run between st1 in
  let taken :=
    PyStr.lower (PyStr.strip raw1)
    ∈ (λ u, PyStr.lower (User.name u)) <$> PyDict.values (users st) in
  ∃ T r1 r2,
    serve (Register raw1 token1 now1) st = (st1, Return (RegisterOk r1))
    ∧ reg_token r1 = Some T
    ∧ serve (Register raw2 token2 now2) st2 = (st2, Return (RegisterOk r2))
    ∧ reg_token r2 = Some T
    ∧ (taken → st1 = st ∧ T ∈ PyDict.keys (users st))
    ∧ (¬ taken →
       T = token1
       ∧ (token1 ∉ PyDict.keys (users st))
       ∧ users st1
         = users st ++ [(token1, new_user (PyStr.strip raw1) now1)]).
Proof.
  intros Hd Hno Hv1 Hv2 Hsame st st1 st2 taken.
  destruct (uuid_distinct_run _ Hd) as [Ha _].
  apply admissible_app in Ha as [Ha0 [Hf Ha1]]. fold st in Hf, Ha1.
  assert (reachable st) as Hr by (apply reachable_run; [constructor | done]).
  destruct (register_twice st raw1 token1 now1 between raw2 token2 now2
              Hr Hv1 Hv2 Hsame Hf Hno Ha1)
    as (T & r1 & r2 & H1 & H2 & H3 & H4 & Ht & Hn).
  exists T, r1, r2. split_and!; try done.
  intros Hnt. destruct (Hn Hnt) as [-> Hu]. split_and!; [done| |done].
  destruct Hf as [_ Hget]. by apply dict_get_None.
Qed.

(** * Further properties of the backend *)

(** ** Name validation *)

Lemma validated_name raw v :
  UserRegisterRequest raw = Some v →
  v = PyStr.strip raw
  ∧ PyStr.strip v = v
  ∧ v ≠ ""
  ∧ PyStr.has_illegal v = false
  ∧ (1 ≤ PyStr.len v ≤ 20)%nat
  ∧ UserRegisterRequest v = Some v.
Proof.
  unfold UserRegisterRequest. case_bool_decide as Hlen; [|done].
  unfold validate_name. intros H.
  destruct (PyStr.is_empty (PyStr.strip raw)) eqn:Ee; [done|].
  destruct (PyStr.has_illegal (PyStr.strip raw)) eqn:Ei; [done|].
  injection H as <-. pose proof (PyStr.len_strip raw) as Hl.
  assert (PyStr.strip raw ≠ "") as Hne by (by destruct (PyStr.strip raw)).
  assert (1 ≤ PyStr.len (PyStr.strip raw) ≤ 20)%nat as Hlen'.
  { split; [|lia].
    destruct (PyStr.len (PyStr.strip raw)) eqn:E; [|lia].
    by apply PyStr.len_empty in E. }
  split_and!; try done; try apply PyStr.strip_idemp; try lia.
  rewrite bool_decide_eq_true_2 by done.
  by rewrite PyStr.strip_idemp, Ee, Ei.
Qed.

(** X1: the name the registration request model hands to the handler is
    a fixed point of the validation.  It is trimmed, it is not empty, it
    holds none of the forbidden characters, it still has between 1 and 20
    characters, and a request that carries it is accepted with the very
    same name.  So the names the store holds can be sent back as they
    are. *)
Theorem validation_idempotent raw v :
  UserRegisterRequest raw = Some v →
  PyStr.strip v = v
  ∧ v ≠ ""
  ∧ PyStr.has_illegal v = false
  ∧ (1 ≤ PyStr.len v ≤ 20)%nat
  ∧ UserRegisterRequest v = Some v.
Proof.
  intros H.
  destruct (validated_name _ _ H) as (_ & Hs & Hne & Hi & Hlen & Hv).
  repeat (split; [done|]). exact Hv.
Qed.

(** ** Looking a name up, two ways *)

(** X2: [is_name_taken] and [get_token_by_name] agree: a name is reported
    as taken exactly when the token lookup finds a participant. *)
Theorem is_name_taken_spec st name :
  is_name_taken st name = true ↔ is_Some (get_token_by_name st name).
Proof.
  unfold is_name_taken, get_user_names, get_token_by_name.
  rewrite bool_decide_eq_true, elem_of_list_to_set.
  set (key := PyStr.strip (PyStr.lower name)).
  destruct (find_token key (users st)) as [t|] eqn:E.
  - split; [by eauto|]. intros _. apply dec_stable. intros Hn.
    apply find_token_None in Hn. congruence.
  - apply find_token_None in E. split; [done | by intros [? ?]].
Qed.

(** ** Every served request is one of eight steps *)

Lemma serve_transition req st :
  Inv st → uuid_fresh st req → transition st (serve req st).1.
Proof.
  intros HI Hf.
  destruct req as [name token now|token oid|opts|preset| | |new|]; simpl.
  - destruct (UserRegisterRequest name) as [v|] eqn:Ev; [|constructor].
    destruct (validated_name _ _ Ev) as (_ & Hs & _ & _ & _ & Hv).
    rewrite fmap_run_fst, register_user_run. unfold get_token_by_name.
    rewrite name_key_stripped by done. destruct Hf as [Hne Hfresh].
    destruct (find_token (PyStr.lower v) (users st)) as [[|c r]|] eqn:E.
    + apply find_token_key in E. pose proof (inv_nonempty _ HI) as He.
      rewrite Forall_forall in He. by destruct (He _ E).
    + destruct (PyDict.get (String c r) (users st)); constructor.
    + rewrite register_new_run. simpl. unfold with_users.
      rewrite dict_set_fresh by done.
      apply (tr_register st v token now); try done.
      by apply find_token_None.
  - rewrite fmap_run_fst, submit_vote_run.
    destruct (PyDict.get token (users st)) as [user|] eqn:Eu; [|constructor].
    destruct (User.eliminated user) eqn:Ee; [constructor|].
    destruct (User.voted user) eqn:Ev; [constructor|].
    destruct (bool_decide (game_status st = voting)) eqn:Es; [|constructor].
    apply bool_decide_eq_true in Es.
    unfold PyDict.contains.
    destruct (PyDict.get oid (options st)) as [o|] eqn:Eo; [|constructor].
    simpl. rewrite dict_alter_compose.
    by apply (tr_vote st token oid user).
  - unfold CreateOptionsRequest. case_bool_decide as Hlen; [|constructor].
    rewrite fmap_run_fst. unfold create_options. rewrite replace_options_run.
    simpl. apply tr_options. intros ->. simpl in Hlen. lia.
  - rewrite fmap_run_fst. destruct preset as [[|n r]|]; try constructor.
    unfold load_preset_options. rewrite replace_options_run. simpl.
    by apply tr_options.
  - rewrite bind_run, start_voting_run.
    destruct (options st) eqn:E; [constructor|]. simpl.
    apply tr_start. by rewrite E.
  - rewrite fmap_run_fst, end_voting_run. case_decide; [|constructor].
    by apply tr_end.
  - rewrite fmap_run_fst.
    destruct (decide (game_status st = result)) as [Hs|Hs].
    + rewrite next_round_run; [|done| |by destruct HI].
      2: { apply (inv_options _ HI). by rewrite Hs. }
      by apply tr_advance.
    + rewrite next_round_wrong_phase by done. constructor.
  - apply tr_reset.
Qed.

(** Induction over the reachable stores, one step at a time. *)
Lemma reachable_transition_ind (P : DataStore → Prop) :
  P reset →
  (∀ st st', reachable st → P st → transition st st' → P st') →
  ∀ st, reachable st → P st.
Proof.
  intros H0 Hstep st Hr. induction Hr as [|st req Hr IH Hf]; [done|].
  apply (Hstep st); [done..|].
  apply serve_transition; [by apply reachable_Inv | done].
Qed.

(** ** More invariants of the reachable stores *)

(** X3: the round counter is always one more than the number of history
    entries, which is also what [get_round_history] reports, and the
    entries are numbered 1, 2, 3, ... in the order they were appended. *)
Theorem history_numbering st :
  reachable st →
  round st = Z.of_nat (length (round_history st)) + 1
  ∧ Z.of_nat (hist_total_rounds (get_round_history st))
    = hist_current_round (get_round_history st) - 1
  ∧ ∀ i e, round_history st !! i = Some e →
           HistoryEntry.round e = Z.of_nat i + 1.
Proof.
  intros Hr.
  cut (round st = Z.of_nat (length (round_history st)) + 1
       ∧ ∀ i e, round_history st !! i = Some e →
                HistoryEntry.round e = Z.of_nat i + 1).
  { intros [H1 H2]. split_and!; [done| |done]. simpl. lia. }
  pattern st. revert st Hr. apply reachable_transition_ind; [by split|].
  intros st st' _ [Hround Hnum] Htr.
  destruct Htr; simpl; try done.
  split.
  - rewrite length_app. simpl. lia.
  - intros i e [[_ Hi]|[-> <-]]%lookup_snoc_Some; [by apply Hnum|].
    simpl. lia.
Qed.

Lemma is_eliminated_get st st' token :
  (∀ u, PyDict.get token (users st) = Some u →
        ∃ u', PyDict.get token (users st') = Some u'
              ∧ User.eliminated u' = User.eliminated u) →
  (PyDict.get token (users st) = None →
   ∀ u', PyDict.get token (users st') = Some u' → User.eliminated u' = false) →
  is_eliminated st' token ↔ is_eliminated st token.
Proof.
  intros Hsome Hnone. unfold is_eliminated.
  destruct (PyDict.get token (users st)) as [u|] eqn:E.
  - destruct (Hsome u eq_refl) as (u' & -> & He). split.
    + intros (? & [= <-] & ?). exists u. split; [done | congruence].
    + intros (? & [= <-] & ?). exists u'. split; [done | congruence].
  - split; [|by intros (? & ? & _)].
    intros (u' & Hu' & He). rewrite (Hnone eq_refl u' Hu') in He. done.
Qed.

Lemma eliminated_set_mirrors_flags_aux st :
  reachable st →
  ∀ token, token ∈ eliminated_users st ↔ is_eliminated st token.
Proof.
  intros Hr. pattern st. revert st Hr. apply reachable_transition_ind.
  { intros token. split; [set_solver | by intros (? & ? & _)]. }
  intros st st' Hr IH Htr token. pose proof (reachable_Inv _ Hr) as HI.
  destruct Htr as [|name tok now Hne Hfresh _ _|tok oid user Hu _ _ _ _
                   |names _| | |new Hs|]; simpl.
  - apply IH.
  - rewrite IH. symmetry. apply is_eliminated_get; simpl.
    + intros u Hu. exists u. by rewrite dict_get_app, Hu.
    + intros Hn u'. rewrite dict_get_app, Hn. simpl.
      case_decide; [|done]. by intros [= <-].
  - rewrite IH. symmetry. apply is_eliminated_get; simpl.
    + intros u Hu'. rewrite dict_get_alter.
      destruct (decide (tok = token)) as [->|]; [|by eauto].
      rewrite Hu'. simpl. by eexists.
    + intros Hn u'. rewrite dict_get_alter.
      destruct (decide (tok = token)) as [->|]; by rewrite Hn.
  - rewrite IH. symmetry. apply is_eliminated_get; simpl.
    + intros u Hu. rewrite dict_get_map_values, Hu. simpl. eexists.
      split; [done|]. apply reset_vote_eliminated.
    + intros Hn u'. by rewrite dict_get_map_values, Hn.
  - apply IH.
  - apply IH.
  - rewrite elem_of_union, IH, elem_of_list_to_set, list_elem_of_fmap.
    unfold is_eliminated. rewrite advanced_get.
    destruct (PyDict.get token (users st)) as [u|] eqn:Eu; simpl.
    + split.
      * intros [(u0 & [= <-] & He)|([t u1] & -> & [[He Ho] Hin]%list_elem_of_filter)].
        -- eexists. split; [done|].
           by rewrite reset_vote_eliminated, mark_eliminated, He.
        -- simpl in *. rewrite (dict_elem_get _ _ _ (inv_tokens _ HI) Hin) in Eu.
           injection Eu as <-. eexists. split; [done|].
           by rewrite reset_vote_eliminated, mark_eliminated, He, Ho.
      * intros (u' & [= <-] & He).
        rewrite reset_vote_eliminated, mark_eliminated in He.
        destruct (User.eliminated u) eqn:Ee; [left; by exists u|].
        right. exists (token, u). split; [done|].
        apply list_elem_of_filter. split; [by split|].
        by apply dict_get_Some_elem.
    + split; [|by intros (? & ? & _)].
      intros [(? & ? & _)|([t u1] & -> & [_ Hin]%list_elem_of_filter)]; [done|].
      simpl in Eu. apply dict_get_None in Eu. destruct Eu.
      apply list_elem_of_fmap. by exists (t, u1).
  - split; [set_solver | by intros (? & ? & _)].
Qed.

Lemma eliminated_users_eq st :
  reachable st →
  eliminated_users st
  = list_to_set (filter (λ kv, User.eliminated kv.2 = true) (users st)).*1.
Proof.
  intros Hr. pose proof (inv_tokens _ (reachable_Inv _ Hr)) as Hnd.
  apply set_eq. intros t.
  rewrite (eliminated_set_mirrors_flags_aux st Hr t).
  rewrite elem_of_list_to_set, list_elem_of_fmap. unfold is_eliminated. split.
  - intros (u & Hu & He). exists (t, u). split; [done|].
    apply list_elem_of_filter. split; [done|]. by apply dict_get_Some_elem.
  - intros ([t' u] & -> & [He Hin]%list_elem_of_filter). exists u.
    split; [|done]. by apply dict_elem_get.
Qed.

(** X4: the set [eliminated_users] and the [eliminated] flags never
    disagree: a token is in the set exactly when it is the key of a
    participant whose flag is set; the set is the set of keys of the
    participants whose flag is set. *)
Theorem eliminated_set_mirrors_flags st :
  reachable st →
  (∀ token, token ∈ eliminated_users st ↔ is_eliminated st token)
  ∧ eliminated_users st
    = list_to_set (filter (λ kv, User.eliminated kv.2 = true) (users st)).*1.
Proof.
  intros Hr. split; [by apply eliminated_set_mirrors_flags_aux|].
  by apply eliminated_users_eq.
Qed.

Lemma fresh_options_keys names :
  PyDict.keys (fresh_options names) = option_id <$> seq 0 (length names).
Proof.
  unfold PyDict.keys, fresh_options. rewrite fmap_imap.
  rewrite <-imap_seq_0. by apply imap_ext.
Qed.

Lemma fresh_options_entries names :
  Forall (λ kv, VoteOption.id kv.2 = kv.1 ∧ VoteOption.votes kv.2 = 0)
    (fresh_options names).
Proof.
  apply Forall_forall. intros kv (i & name & -> & _)%elem_of_lookup_imap.
  done.
Qed.

Lemma dict_alter_Forall {V} (P : string * V → Prop) (f : V → V) k
    (d : PyDict.dict V) :
  (∀ k' v, P (k', v) → P (k', f v)) →
  Forall P d → Forall P (PyDict.alter f k d).
Proof.
  intros Hf. induction 1 as [|[k' v] r Hkv Hr IH]; simpl; [constructor|].
  case_decide; constructor; auto.
Qed.

(** X5: the active options are always keyed [option_1], [option_2],
    ... in order, every option carries its key as its [id], and no tally
    is negative. *)
Theorem option_ids_sequential st :
  reachable st →
  PyDict.keys (options st) = option_id <$> seq 0 (length (options st))
  ∧ Forall (λ kv, VoteOption.id kv.2 = kv.1 ∧ 0 ≤ VoteOption.votes kv.2)
      (options st).
Proof.
  intros Hr. pattern st. revert st Hr. apply reachable_transition_ind.
  { split; [done | constructor]. }
  assert (∀ names,
    PyDict.keys (fresh_options names)
    = option_id <$> seq 0 (length (fresh_options names))
    ∧ Forall (λ kv, VoteOption.id kv.2 = kv.1 ∧ 0 ≤ VoteOption.votes kv.2)
        (fresh_options names)) as Hfresh.
  { intros names. split.
    - rewrite fresh_options_keys. unfold fresh_options. by rewrite length_imap.
    - eapply Forall_impl; [apply fresh_options_entries|].
      intros kv [? ->]. done. }
  intros st st' _ [Hkeys Hids] Htr.
  destruct Htr as [|name tok now _ _ _ _|tok oid user _ _ _ _ _
                   |names _| | |new Hs|]; simpl; try done; try apply Hfresh.
  - split.
    + rewrite dict_keys_alter, Hkeys. do 2 f_equal.
      pose proof (dict_keys_alter VoteOption.add_vote oid (options st)) as E.
      apply (f_equal length) in E. unfold PyDict.keys in E.
      by rewrite !length_fmap in E.
    + apply dict_alter_Forall; [|done]. intros k' o [? ?]. simpl in *.
      split; [done|lia].
Qed.

(** Counting the values that satisfy [P] when the altered one neither
    did nor does. *)
Lemma count_alter_same {V} (P : V → Prop) `{!∀ v, Decision (P v)}
    (f : V → V) k (d : PyDict.dict V) :
  (∀ v, PyDict.get k d = Some v → ¬ P v ∧ ¬ P (f v)) →
  length (filter P (PyDict.values (PyDict.alter f k d)))
  = length (filter P (PyDict.values d)).
Proof.
  intros Hv. destruct (PyDict.get k d) as [v|] eqn:E.
  - destruct (Hv v eq_refl) as [H1 H2].
    destruct (dict_values_alter f _ _ _ E) as (l1 & l2 & -> & ->).
    by rewrite !filter_app, !(filter_cons_False P) by done.
  - clear Hv. unfold PyDict.values.
    induction d as [|[k' v'] r IH]; simpl in *; [done|].
    case_decide; [done|]. csimpl.
    rewrite !filter_cons. destruct (decide (P v')); simpl; auto.
Qed.

Lemma ballots_for_reset k (us : PyDict.dict User.t) :
  filter (λ u, User.eliminated u = false ∧ User.voted u = true
               ∧ User.vote_option u = Some k)
    (PyDict.values (PyDict.map_values reset_vote us)) = [].
Proof.
  apply filter_none. rewrite dict_values_map_values.
  intros u (u0 & -> & _)%list_elem_of_fmap (He & Hv & _).
  apply reset_vote_in_play in He as [Hv' _]. congruence.
Qed.

(** X6: in every reachable store the tally of each active option is the
    number of participants in play who have voted and whose chosen
    option is that one. *)
Theorem tally_per_option st :
  reachable st →
  ∀ option_id opt,
    PyDict.get option_id (options st) = Some opt →
    VoteOption.votes opt = Z.of_nat (ballots_for option_id st).
Proof.
  intros Hr. pattern st. revert st Hr. apply reachable_transition_ind; [done|].
  assert (∀ names k o us,
    PyDict.get k (fresh_options names) = Some o →
    VoteOption.votes o
    = Z.of_nat (length (filter
        (λ u, User.eliminated u = false ∧ User.voted u = true
              ∧ User.vote_option u = Some k)
        (PyDict.values (PyDict.map_values reset_vote us))))) as Hfresh.
  { intros names k o us Hk%dict_get_Some_elem. rewrite ballots_for_reset.
    pose proof (fresh_options_entries names) as Hall.
    rewrite Forall_forall in Hall. by destruct (Hall _ Hk). }
  intros st st' _ IH Htr.
  destruct Htr as [|name tok now _ _ _ _|tok oid user Hu He Hv _ _
                   |names _| | |new Hs|]; unfold ballots_for in *; simpl;
    try done.
  - intros k o Hk. rewrite dict_values_app, filter_app. csimpl.
    rewrite filter_cons_False by (by intros (_ & ? & _)).
    rewrite filter_nil, app_nil_r. by apply IH.
  - intros k o. rewrite dict_get_alter.
    destruct (decide (oid = k)) as [->|Hne].
    + destruct (PyDict.get k (options st)) as [o0|] eqn:Eo; [|done].
      intros [= <-]. simpl. rewrite (IH k o0 Eo).
      rewrite (count_alter_gain _ _ _ user); [lia|done| |].
      * rewrite Hv. by intros (_ & ? & _).
      * simpl. by rewrite He.
    + intros Hk. rewrite (IH k o Hk). f_equal. symmetry.
      apply count_alter_same. intros v Hv'. rewrite Hu in Hv'.
      injection Hv' as <-. split.
      * rewrite Hv. by intros (_ & ? & _).
      * simpl. intros (_ & _ & [= ?]). done.
  - intros k o. apply Hfresh.
  - intros k o. apply Hfresh.
Qed.

Lemma ballot_coherent_options st st' user :
  (∀ k, is_Some (PyDict.get k (options st)) →
        is_Some (PyDict.get k (options st'))) →
  ballot_coherent st user → ballot_coherent st' user.
Proof.
  intros Hk [H|(Hv & k & Ho & Hin)]; [by left|].
  right. split; [done|]. exists k. auto.
Qed.

(** X7: for every participant in play the two ballot fields agree:
    either [voted] is false and no option is recorded, or [voted] is true
    and the recorded option is one of the active options. *)
Theorem ballot_fields_coherent st :
  reachable st →
  ∀ token user,
    PyDict.get token (users st) = Some user →
    User.eliminated user = false → ballot_coherent st user.
Proof.
  intros Hr. pattern st. revert st Hr. apply reachable_transition_ind; [done|].
  assert (∀ u, User.eliminated (reset_vote u) = false →
               User.voted (reset_vote u) = false
               ∧ User.vote_option (reset_vote u) = None) as Hreset
    by apply reset_vote_in_play.
  intros st st' _ IH Htr.
  destruct Htr as [|name tok now _ _ _ _|tok oid user Hu He Hv _ Ho
                   |names _| | |new Hs|]; simpl; try done.
  - intros t u. rewrite dict_get_app.
    destruct (PyDict.get t (users st)) as [u0|] eqn:E.
    + intros [= <-] He. by apply (IH t).
    + simpl. case_decide; [|done]. intros [= <-] _. by left.
  - intros t u. rewrite dict_get_alter.
    destruct (decide (tok = t)) as [->|Hne].
    + rewrite Hu. simpl. intros [= <-] _. right. split; [done|].
      exists oid. split; [done|]. simpl. rewrite dict_get_alter_eq.
      destruct Ho as [o ->]. by eexists.
    + intros Ht He'. eapply ballot_coherent_options; [|by apply (IH t)].
      intros k [o Hk]. simpl. rewrite dict_get_alter.
      destruct (decide (oid = k)) as [->|]; rewrite Hk; by eexists.
  - intros t u. rewrite dict_get_map_values.
    destruct (PyDict.get t (users st)) as [u0|]; [|done].
    intros [= <-] He. left. by apply Hreset.
  - intros t u. rewrite dict_get_map_values, dict_get_map_values.
    destruct (PyDict.get t (users st)) as [u0|]; [|done].
    intros [= <-] He. left. by apply Hreset.
Qed.

(** X8: in every reachable store no two participants have the same name,
    even up to case, and every stored name is one the registration
    request model accepts and returns unchanged: it is trimmed, not
    empty, free of the forbidden characters and at most 20 characters
    long. *)
Theorem participants_distinct st :
  reachable st →
  NoDup ((λ u, PyStr.lower (User.name u)) <$> PyDict.values (users st))
  ∧ Forall (λ u, UserRegisterRequest (User.name u) = Some (User.name u)
                 ∧ PyStr.strip (User.name u) = User.name u
                 ∧ (1 ≤ PyStr.len (User.name u) ≤ 20)%nat)
      (PyDict.values (users st)).
Proof.
  intros Hr. split; [by destruct (reachable_Inv _ Hr)|].
  cut (Forall (λ u, UserRegisterRequest (User.name u) = Some (User.name u))
         (PyDict.values (users st))).
  { intros HF. eapply Forall_impl; [exact HF|]. intros u Hu. simpl in Hu.
    destruct (validated_name _ _ Hu) as (_ & Hs & _ & _ & Hlen & _).
    split_and!; [exact Hu | exact Hs | lia..]. }
  pattern st. revert st Hr. apply reachable_transition_ind; [constructor|].
  intros st st' _ IH Htr.
  assert (∀ f : User.t → User.t, (∀ u, User.name (f u) = User.name u) →
    ∀ us, Forall (λ u, UserRegisterRequest (User.name u) = Some (User.name u))
            (PyDict.values us) →
          Forall (λ u, UserRegisterRequest (User.name u) = Some (User.name u))
            (PyDict.values (PyDict.map_values f us))) as Hmap.
  { intros f Hf us Hus. rewrite dict_values_map_values.
    apply Forall_fmap. eapply Forall_impl; [done|].
    intros u Hu. simpl. by rewrite Hf. }
  destruct Htr as [|name tok now _ _ Hv _|tok oid user Hu _ _ _ _
                   |names _| | |new Hs|]; simpl; try done.
  - rewrite dict_values_app. apply Forall_app. split; [done|]. csimpl.
    by constructor.
  - apply Forall_forall. intros u Hin.
    assert (User.name u ∈ User.name <$> PyDict.values (users st)) as Hn.
    { rewrite <-(dict_alter_observe User.name
        (User.set_vote_option (Some oid) ∘ User.set_voted true) tok)
        by done.
      by apply list_elem_of_fmap_2. }
    apply list_elem_of_fmap in Hn as (u0 & -> & Hu0).
    rewrite Forall_forall in IH. by apply IH.
  - apply Hmap; [apply reset_vote_name | done].
  - apply Hmap; [apply reset_vote_name|].
    apply Hmap; [apply mark_name | done].
Qed.

(** ** Head counts *)

Lemma headcount_before out (us : PyDict.dict User.t) :
  length (filter (λ u, User.eliminated u = false) (PyDict.values us))
  = (length (filter (leaves out) us) + length (filter (stays out) us))%nat.
Proof.
  unfold PyDict.values, leaves, stays.
  induction us as [|[t u] r IH]; [done|]. csimpl.
  rewrite !filter_cons. simpl.
  destruct (User.eliminated u) eqn:Ee, (out u) eqn:Eo;
    repeat case_decide; simpl; try lia; naive_solver.
Qed.

Lemma headcount_after out (us : PyDict.dict User.t) :
  length (filter (λ u, User.eliminated u = false)
            (PyDict.values
               (PyDict.map_values reset_vote (PyDict.map_values (mark out) us))))
  = length (filter (stays out) us).
Proof.
  rewrite !dict_values_map_values. unfold PyDict.values, stays.
  induction us as [|[t u] r IH]; [done|]. csimpl.
  rewrite !filter_cons. simpl.
  rewrite reset_vote_eliminated, mark_eliminated.
  destruct (User.eliminated u) eqn:Ee, (out u) eqn:Eo;
    repeat case_decide; simpl; try lia; naive_solver.
Qed.

(** X9: the figures [next_round] returns add up: the number of
    participants it eliminates plus the number it reports as still active
    is the number that were active before; the two name lists of the
    history entry have exactly those lengths. *)
Theorem next_round_headcount st new_options :
  reachable st → game_status st = result →
  ∃ st' resp entry,
    next_round new_options st = (st', Return resp)
    ∧ round_history st' = round_history st ++ [entry]
    ∧ (nr_eliminated_count resp + nr_active_users resp = active_users st)%nat
    ∧ nr_active_users resp = active_users st'
    ∧ length (HistoryEntry.eliminated entry) = nr_eliminated_count resp
    ∧ length (HistoryEntry.survivors entry) = nr_active_users resp.
Proof.
  intros Hr Hs.
  exists (advanced new_options st), (next_round_response new_options st),
    (round_entry st).
  split_and!; try done.
  - by apply next_round_reachable.
  - simpl. unfold active_users. rewrite advanced_users.
    by rewrite headcount_after, (headcount_before (out_rule st)).
  - simpl. by rewrite !length_fmap.
  - simpl. unfold active_users. rewrite advanced_users.
    by rewrite headcount_after, !length_fmap.
Qed.

Lemma filter_complement_length {A} (P : A → Prop) `{!∀ x, Decision (P x)}
    (l : list A) :
  (length (filter P l) + length (filter (λ x, ¬ P x) l) = length l)%nat.
Proof.
  induction l as [|x l IH]; [done|]. rewrite !filter_cons.
  destruct (decide (P x)); [rewrite decide_False by tauto|
                            rewrite decide_True by tauto]; simpl; lia.
Qed.

(** X10: the counts the endpoints report are consistent with the
    eliminated set: the [user_count] of [get_config] plus the size of
    [eliminated_users] is the [total] of [get_users]. *)
Theorem headcount_partition st :
  reachable st →
  (cfg_user_count (get_config st) + size (eliminated_users st)
   = (get_users st).2)%nat.
Proof.
  intros Hr. pose proof (reachable_Inv _ Hr) as HI.
  pose proof (inv_tokens _ HI) as Hnd.
  rewrite (eliminated_users_eq st Hr).
  rewrite size_list_to_set.
  2: { apply (sublist_NoDup _ (PyDict.keys (users st))); [exact Hnd|].
       apply fmap_sublist, sublist_filter. }
  simpl. rewrite !length_fmap. unfold active_users, PyDict.values.
  rewrite <-(filter_complement_length
               (λ kv : string * User.t, User.eliminated kv.2 = false) (users st)).
  f_equal.
  - clear. induction (users st) as [|[t u] r IH]; [done|]. csimpl.
    rewrite !filter_cons. simpl. case_decide; simpl; by rewrite IH.
  - f_equal. apply list_filter_iff. intros [t u]. simpl.
    destruct (User.eliminated u); naive_solver.
Qed.

(** ** Replacing the option set *)

(** X11: [create_options] rejects a list of fewer than 2 or more than 4
    names without touching the store.  Otherwise it succeeds in any
    phase: the options become one option per name, in order, keyed
    [option_1], [option_2], ... with tally 0; every participant in play
    has [voted] false and no chosen option; eliminated participants,
    phase, round, eliminated set and history are untouched. *)
Theorem create_options_effect st opts :
  (¬ (2 ≤ length opts ≤ 4)%nat →
   serve (CreateOptions opts) st = (st, Raise RequestValidationError))
  ∧ ((2 ≤ length opts ≤ 4)%nat →
     ∃ st',
       serve (CreateOptions opts) st
       = (st', Return (OptionsOk (PyDict.values (options st'))))
       ∧ options st'
         = imap (λ i name, (option_id i, VoteOption.mk (option_id i) name 0))
             opts
       ∧ NoDup (PyDict.keys (options st'))
       ∧ total_votes st' = 0
       ∧ voted_count st' = 0%nat
       ∧ PyDict.keys (users st') = PyDict.keys (users st)
       ∧ (∀ token user,
            PyDict.get token (users st) = Some user →
            PyDict.get token (users st')
            = Some (if User.eliminated user then user
                    else User.mk (User.name user) false None false
                           (User.joined_at user)))
       ∧ game_status st' = game_status st
       ∧ round st' = round st
       ∧ eliminated_users st' = eliminated_users st
       ∧ round_history st' = round_history st).
Proof.
  split.
  - intros Hlen. simpl. unfold CreateOptionsRequest.
    by rewrite bool_decide_eq_false_2.
  - intros Hlen. simpl. unfold CreateOptionsRequest.
    rewrite bool_decide_eq_true_2 by done.
    unfold create_options. rewrite fmap_run, replace_options_run. simpl.
    exists (mkStore (PyDict.map_values reset_vote (users st))
              (fresh_options opts) (game_status st) (round st)
              (eliminated_users st) (round_history st)).
    split; [reflexivity|]. simpl. split_and!; try done.
    + rewrite fresh_options_keys. apply NoDup_fmap_2_strong; [|apply NoDup_seq].
      intros i j _ _. apply option_id_inj.
    + unfold total_votes. simpl. apply total_votes_zero, fresh_options_votes.
    + unfold voted_count. simpl. by rewrite voted_count_reset.
    + apply dict_keys_map_values.
    + intros token user Hu. rewrite dict_get_map_values, Hu. simpl.
      unfold reset_vote, User.set_vote_option, User.set_voted.
      destruct (User.eliminated user) eqn:E; simpl; by rewrite ?E.
Qed.

(** ** Tokens keep resolving *)

Lemma get_user_status_run token st :
  get_user_status token st
  = match PyDict.get token (users st) with
    | None => (st, Raise (HTTPException 404 "用户不存在"))
    | Some user =>
        (st, Return (mkUserStatus (User.name user) (User.voted user)
                       (User.vote_option user) (User.eliminated user)
                       (game_status st) (round st) (current_options st)))
    end.
Proof.
  unfold get_user_status. handler. by destruct (PyDict.get token (users st)).
Qed.

(** X12: a token that resolves to a participant keeps resolving, along
    every run of requests without reset, to a participant with the same
    name: [get_user_status] never answers 404 for it and never reports
    another name, and once it reports the participant as eliminated it
    does so for good.  A token that is the key of no participant gets
    404 and the store is left as it is. *)
Theorem token_keeps_resolving reqs st token :
  reachable st → Reset ∉ reqs → admissible reqs st →
  match PyDict.get token (users st) with
  | None =>
      get_user_status token st = (st, Raise (HTTPException 404 "用户不存在"))
  | Some user =>
      ∃ status,
        get_user_status token (run reqs st) = (run reqs st, Return status)
        ∧ us_name status = User.name user
        ∧ (User.eliminated user = true → us_eliminated status = true)
  end.
Proof.
  intros Hr Hno Ha. destruct (PyDict.get token (users st)) as [user|] eqn:Eu.
  - destruct (run_users_extend reqs st Hr Hno Ha) as [Hext _].
    destruct (users_extend_get _ _ _ _ Hext Eu) as (u' & Hu' & Hn & He).
    rewrite get_user_status_run, Hu'. eexists. by split_and!.
  - by rewrite get_user_status_run, Eu.
Qed.

(** ** Joining after the ballots are closed *)



(** ** A round can always be completed *)

(** X14: from any reachable store with a non-empty option set, whatever
    the phase, the three host requests start, end and next-round succeed
    one after the other: the results returned by the end request are the
    options as they stood, the round number grows by 1 and the phase is
    waiting again. *)
Theorem round_can_complete st new_options :
  reachable st → options st ≠ [] →
  ∃ st1 st2 st3 resp,
    serve StartVoting st = (st1, Return StartOk)
    ∧ serve EndVoting st1
      = (st2, Return (EndOk (PyDict.values (options st))))
    ∧ serve (NextRound new_options) st2 = (st3, Return (NextRoundOk resp))
    ∧ game_status st1 = voting
    ∧ game_status st2 = result
    ∧ game_status st3 = waiting
    ∧ round st3 = round st + 1
    ∧ length (round_history st3) = S (length (round_history st)).
Proof.
  intros Hr Ho.
  assert (serve StartVoting st = (with_game_status voting st, Return StartOk))
    as H1.
  { simpl. rewrite bind_run, start_voting_run. by destruct (options st). }
  assert (reachable (with_game_status voting st)) as Hr1.
  { replace (with_game_status voting st) with (serve StartVoting st).1
      by by rewrite H1.
    by constructor. }
  assert (serve EndVoting (with_game_status voting st)
          = (with_game_status result (with_game_status voting st),
             Return (EndOk (PyDict.values (options st))))) as H2.
  { simpl. rewrite fmap_run, end_voting_run. by rewrite decide_True. }
  assert (reachable (with_game_status result (with_game_status voting st)))
    as Hr2.
  { replace (with_game_status result (with_game_status voting st))
      with (serve EndVoting (with_game_status voting st)).1 by by rewrite H2.
    by constructor. }
  eexists _, _, _, _. split; [exact H1|]. split; [exact H2|]. split.
  { simpl. rewrite fmap_run, next_round_reachable by done. done. }
  split_and!; try done. simpl. rewrite length_app. simpl. lia.
Qed.

(** ** The connection manager *)

Lemma pick_nil {A} ok b i : pick ok b i (@nil A) = [].
Proof. done. Qed.

Lemma pick_cons {A} ok b i (x : A) l :
  pick ok b i (x :: l)
  = if decide (ok i = b) then x :: pick ok b (S i) l else pick ok b (S i) l.
Proof.
  unfold pick. rewrite imap_cons, filter_cons. simpl.
  rewrite Nat.add_0_r.
  assert (imap ((λ j (x0 : A), ((i + j)%nat, x0)) ∘ S) l
          = imap (λ j x0, ((S i + j)%nat, x0)) l) as ->.
  { apply imap_ext. intros j y _. simpl. f_equal. lia. }
  by case_decide.
Qed.

Lemma pick_sublist {A} ok b i (l : list A) : pick ok b i l `sublist_of` l.
Proof.
  revert i. induction l as [|x l IH]; intros i; [done|].
  rewrite pick_cons. case_decide; [by apply sublist_skip | by apply sublist_cons].
Qed.

Lemma pick_partition {A} ok i (l : list A) :
  l ≡ₚ pick ok false i l ++ pick ok true i l.
Proof.
  revert i. induction l as [|x l IH]; intros i; [done|].
  rewrite !pick_cons. destruct (ok i); simpl.
  - rewrite <-Permutation_middle. by f_equiv.
  - by f_equiv.
Qed.

Lemma elem_of_pick {A} ok b i (l : list A) x :
  x ∈ pick ok b i l ↔ ∃ j, l !! j = Some x ∧ ok (i + j)%nat = b.
Proof.
  revert i. induction l as [|y l IH]; intros i.
  - rewrite pick_nil, elem_of_nil. split; [done | by intros (j & ? & _)].
  - rewrite pick_cons. split.
    + case_decide as Hi.
      * intros [->|Hx]%elem_of_cons.
        -- exists 0%nat. by rewrite Nat.add_0_r.
        -- apply IH in Hx as (j & ? & ?). exists (S j).
           split; [done|]. by replace (i + S j)%nat with (S i + j)%nat by lia.
      * intros Hx. apply IH in Hx as (j & ? & ?). exists (S j).
        split; [done|]. by replace (i + S j)%nat with (S i + j)%nat by lia.
    + intros ([|j] & Hj & Hok); simpl in Hj.
      * injection Hj as ->. rewrite Nat.add_0_r in Hok.
        rewrite decide_True by done. left.
      * assert (x ∈ pick ok b (S i) l) as Hin.
        { apply IH. exists j. split; [done|].
          by replace (S i + j)%nat with (i + S j)%nat by lia. }
        case_decide; [by right | done].
Qed.

Lemma host_pass_pick ok i l :
  Manager.host_pass ok i l = (pick ok true i l, pick ok false i l).
Proof.
  revert i. induction l as [|c l IH]; intros i; [done|].
  simpl. rewrite IH, !pick_cons. by destruct (ok i).
Qed.

Lemma user_pass_pick ok i (items : PyDict.dict WebSocket) :
  Manager.user_pass ok i items
  = ((pick ok true i items).*2, (pick ok false i items).*1).
Proof.
  revert i. induction items as [|[t c] r IH]; intros i; [done|].
  simpl. rewrite IH, !pick_cons. by destruct (ok i).
Qed.

Lemma py_list_remove_Some {A} `{EqDecision A} (x : A) l :
  x ∈ l → ∃ l', py_list_remove x l = Some l' ∧ l ≡ₚ x :: l'.
Proof.
  induction l as [|y l IH]; [by intros ?%elem_of_nil|].
  intros Hx. simpl. destruct (decide (y = x)) as [->|Hne]; [by eexists|].
  apply elem_of_cons in Hx as [->|Hx]; [done|].
  destruct (IH Hx) as (l' & -> & Hp). eexists. split; [done|].
  rewrite Hp. apply perm_swap.
Qed.

Lemma remove_all_submseteq k l :
  k ⊆+ l → ∃ l', Manager.remove_all k l = Some l' ∧ l ≡ₚ k ++ l'.
Proof.
  revert l. induction k as [|x k IH]; intros l Hk; simpl.
  - by exists l.
  - assert (x ∈ l) as Hx.
    { eapply elem_of_submseteq; [|done]. left. }
    destruct (py_list_remove_Some x l Hx) as (l1 & -> & Hp). simpl.
    destruct (IH l1) as (l' & -> & Hp').
    { rewrite Hp in Hk. by apply (submseteq_app_inv_l _ _ [x]). }
    exists l'. split; [done|]. by rewrite Hp, Hp'.
Qed.

Lemma remove_all_cons_notin c k l :
  c ∉ k → Manager.remove_all k (c :: l) = (c ::.) <$> Manager.remove_all k l.
Proof.
  revert l. induction k as [|x k IH]; intros l Hc; [done|].
  apply not_elem_of_cons in Hc as [Hne Hc]. simpl.
  rewrite decide_False by done.
  destruct (py_list_remove x l) as [l1|]; simpl; [by apply IH | done].
Qed.

Lemma remove_all_pick ok i l :
  NoDup l → Manager.remove_all (pick ok false i l) l = Some (pick ok true i l).
Proof.
  revert i. induction l as [|c l IH]; intros i Hnd; [done|].
  apply NoDup_cons in Hnd as [Hc Hnd]. rewrite !pick_cons.
  destruct (ok i); simpl.
  - rewrite remove_all_cons_notin, IH by
      (done || (intros Hin; apply Hc; eapply elem_of_sublist; [done|apply pick_sublist])).
    done.
  - rewrite decide_True by done. by apply IH.
Qed.

(** X15: [broadcast_to_hosts] never fails, whatever sends fail.  The
    message goes out, in order, to the connections whose send went
    through; the connections kept afterwards are those same connections
    (as a list when no connection is registered twice, up to order
    otherwise); a failed send costs no other connection its message; the
    participant connections are not touched. *)
Theorem broadcast_to_hosts_prunes {Message} ok (message : Message)
    (m : Manager.t) :
  let conns := Manager.host_connections m in
  let sent := pick ok true 0 conns in
  ∃ kept,
    Manager.broadcast_to_hosts ok message m
    = Some (Manager.mk kept (Manager.user_connections m),
            (λ c, (c, message)) <$> sent)
    ∧ kept ≡ₚ sent
    ∧ (NoDup conns → kept = sent)
    ∧ (∀ i c, conns !! i = Some c → ok i = true → c ∈ kept)
    ∧ (NoDup conns → ∀ i c, conns !! i = Some c → ok i = false → c ∉ kept).
Proof.
  intros conns sent. unfold Manager.broadcast_to_hosts.
  rewrite host_pass_pick. fold conns.
  destruct (remove_all_submseteq (pick ok false 0 conns) conns)
    as (kept & Hk & Hp).
  { apply sublist_submseteq, pick_sublist. }
  rewrite Hk. simpl. exists kept.
  assert (kept ≡ₚ sent) as Hperm.
  { rewrite (pick_partition ok 0 conns) in Hp at 1.
    by apply Permutation_app_inv_l in Hp. }
  assert (NoDup conns → kept = sent) as Heq.
  { intros Hnd. rewrite remove_all_pick in Hk by done. by injection Hk. }
  split_and!; try done.
  - intros i c Hi Hok. rewrite Hperm. apply elem_of_pick. by exists i.
  - intros Hnd i c Hi Hok Hin. rewrite (Heq Hnd) in Hin.
    apply elem_of_pick in Hin as (j & Hj & Hokj). simpl in Hokj.
    assert (i = j) as -> by by eapply NoDup_lookup.
    congruence.
Qed.

Lemma py_dict_del_cons_ne {V} k k' (v : V) (d : PyDict.dict V) :
  k' ≠ k → py_dict_del k ((k', v) :: d) = ((k', v) ::.) <$> py_dict_del k d.
Proof. intros. simpl. by rewrite decide_False. Qed.

Lemma del_all_cons_notin k (kv : string * WebSocket) d :
  kv.1 ∉ k → Manager.del_all k (kv :: d) = (kv ::.) <$> Manager.del_all k d.
Proof.
  destruct kv as [t c]. revert d.
  induction k as [|x k IH]; intros d Hc; [done|].
  apply not_elem_of_cons in Hc as [Hne Hc]. simpl in *.
  rewrite decide_False by done.
  destruct (py_dict_del x d) as [d1|]; simpl; [by apply IH | done].
Qed.

Lemma del_all_pick ok i (d : PyDict.dict WebSocket) :
  NoDup (PyDict.keys d) →
  Manager.del_all (pick ok false i d).*1 d = Some (pick ok true i d).
Proof.
  unfold PyDict.keys. revert i.
  induction d as [|[t c] d IH]; intros i Hnd; [done|].
  csimpl in Hnd. apply NoDup_cons in Hnd as [Hc Hnd]. rewrite !pick_cons.
  destruct (ok i); simpl.
  - rewrite (del_all_cons_notin _ (t, c)), IH; [done..|].
    simpl. intros Hin. apply Hc.
    eapply elem_of_sublist; [done|]. apply fmap_sublist, pick_sublist.
  - rewrite decide_True by done. by apply IH.
Qed.

(** X16: [broadcast_to_users] never fails.  The message goes out, in
    order, to the connections whose send went through; exactly the
    entries whose send failed are deleted from [user_connections], the
    others keep their token and their place; the host connections are not
    touched. *)
Theorem broadcast_to_users_prunes {Message} ok (message : Message)
    (m : Manager.t) :
  NoDup (PyDict.keys (Manager.user_connections m)) →
  let items := Manager.user_connections m in
  Manager.broadcast_to_users ok message m
  = Some (Manager.mk (Manager.host_connections m) (pick ok true 0 items),
          (λ c, (c, message)) <$> (pick ok true 0 items).*2)
  ∧ NoDup (PyDict.keys (pick ok true 0 items))
  ∧ ∀ i token c, items !! i = Some (token, c) →
      PyDict.get token (pick ok true 0 items)
      = if ok i then Some c else None.
Proof.
  intros Hnd items. unfold Manager.broadcast_to_users.
  rewrite user_pass_pick. fold items. rewrite del_all_pick by done. simpl.
  assert (NoDup (PyDict.keys (pick ok true 0 items))) as Hnd'.
  { eapply sublist_NoDup; [exact Hnd|]. apply fmap_sublist, pick_sublist. }
  split_and!; try done.
  intros i token c Hi. destruct (ok i) eqn:Hok.
  - apply dict_elem_get; [done|]. apply elem_of_pick. by exists i.
  - apply dict_get_None. intros Hin.
    apply list_elem_of_fmap in Hin as ([t c'] & -> & Hin).
    apply elem_of_pick in Hin as (j & Hj & Hokj). simpl in Hokj.
    assert (i = j) as ->.
    { apply (NoDup_lookup (PyDict.keys items) i j t Hnd);
        unfold PyDict.keys; rewrite list_lookup_fmap.
      - by rewrite Hi.
      - by rewrite Hj. }
    congruence.
Qed.

Lemma py_dict_del_spec {V} k (d : PyDict.dict V) :
  NoDup (PyDict.keys d) → k ∈ PyDict.keys d →
  py_dict_del k d = Some (filter (λ kv, kv.1 ≠ k) d).
Proof.
  unfold PyDict.keys. induction d as [|[k' v] d IH]; csimpl; intros Hnd Hk.
  - by apply elem_of_nil in Hk.
  - apply NoDup_cons in Hnd as [Hk' Hnd]. rewrite filter_cons. simpl.
    destruct (decide (k' = k)) as [->|Hne].
    + rewrite decide_False by naive_solver. f_equal. symmetry.
      apply filter_all. intros [k1 v1] Hin Heq. simpl in Heq. subst k1.
      apply Hk'. apply list_elem_of_fmap. by exists (k, v1).
    + rewrite decide_True by done.
      apply elem_of_cons in Hk as [->|Hk]; [done|]. by rewrite IH.
Qed.

Lemma dict_get_filter_ne {V} k k' (d : PyDict.dict V) :
  PyDict.get k' (filter (λ kv, kv.1 ≠ k) d)
  = if decide (k' = k) then None else PyDict.get k' d.
Proof.
  induction d as [|[k0 v] d IH]; [by case_decide|].
  rewrite filter_cons. simpl. destruct (decide (k0 ≠ k)) as [Hne|Heq]; simpl.
  - rewrite IH. destruct (decide (k0 = k')) as [->|]; [|done].
    by rewrite decide_False.
  - apply dec_stable in Heq as ->. rewrite IH.
    destruct (decide (k' = k)) as [->|Hne]; [done|]. by rewrite decide_False.
Qed.

(** X17: [send_to_user] never fails.  For a token with no connection it
    sends nothing and changes nothing; when the send goes through, the
    message goes to that token's connection and nothing changes; when
    the send fails, nothing goes out, that token loses its connection
    and every other token keeps its own. *)
Theorem send_to_user_outcomes {Message} ok token (message : Message)
    (m : Manager.t) :
  NoDup (PyDict.keys (Manager.user_connections m)) →
  match PyDict.get token (Manager.user_connections m) with
  | None => Manager.send_to_user ok token message m = Some (m, [])
  | Some c =>
      (ok = true →
       Manager.send_to_user ok token message m = Some (m, [(c, message)]))
      ∧ (ok = false →
         ∃ d,
           Manager.send_to_user ok token message m
           = Some (Manager.mk (Manager.host_connections m) d, [])
           ∧ PyDict.get token d = None
           ∧ (∀ t, t ≠ token →
                PyDict.get t d = PyDict.get t (Manager.user_connections m))
           ∧ NoDup (PyDict.keys d))
  end.
Proof.
  intros Hnd. unfold Manager.send_to_user.
  destruct (PyDict.get token (Manager.user_connections m)) as [c|] eqn:E;
    [|done].
  split; [by intros ->|]. intros ->.
  rewrite py_dict_del_spec; [|done|].
  2: { apply dec_stable. intros Hn. apply dict_get_None in Hn. congruence. }
  simpl. eexists. split; [done|]. split_and!.
  - rewrite dict_get_filter_ne. by rewrite decide_True.
  - intros t Ht. rewrite dict_get_filter_ne. by rewrite decide_False.
  - eapply sublist_NoDup; [exact Hnd|]. apply fmap_sublist, sublist_filter.
Qed.

Lemma dict_get_set {V} k k' (v : V) (d : PyDict.dict V) :
  PyDict.get k' (PyDict.set k v d)
  = if decide (k = k') then Some v else PyDict.get k' d.
Proof.
  induction d as [|[k0 v0] d IH]; simpl.
  - by destruct (decide (k = k')).
  - destruct (decide (k0 = k)) as [->|Hne]; simpl.
    + by destruct (decide (k = k')).
    + rewrite IH. destruct (decide (k = k')) as [->|]; [|done].
      by rewrite decide_False.
Qed.

Lemma dict_keys_set {V} k (v : V) (d : PyDict.dict V) :
  (k ∈ PyDict.keys d → PyDict.keys (PyDict.set k v d) = PyDict.keys d)
  ∧ (k ∉ PyDict.keys d →
     PyDict.keys (PyDict.set k v d) = PyDict.keys d ++ [k]).
Proof.
  unfold PyDict.keys. induction d as [|[k0 v0] d [IH1 IH2]]; csimpl.
  - split; [by intros ?%elem_of_nil | done].
  - destruct (decide (k0 = k)) as [->|Hne]; csimpl.
    + split; [done|]. intros []. left.
    + split.
      * intros [?|?]%elem_of_cons; [congruence|]. by rewrite IH1.
      * intros [_ ?]%not_elem_of_cons. by rewrite IH2.
Qed.

(** X18: one connection per token.  [connect_user] keeps the tokens of
    [user_connections] distinct; connecting again under a token replaces
    the connection stored for it, in place, and leaves the other tokens
    alone.  If the replaced connection then disconnects,
    [disconnect_user] removes the entry of the token, so the newer
    connection gets nothing any more. *)
Theorem reconnect_replaces {Message} ws1 ws2 token (message : Message)
    (m : Manager.t) :
  NoDup (PyDict.keys (Manager.user_connections m)) →
  let m2 := Manager.connect_user ws2 token (Manager.connect_user ws1 token m) in
  NoDup (PyDict.keys (Manager.user_connections m2))
  ∧ PyDict.get token (Manager.user_connections m2) = Some ws2
  ∧ PyDict.keys (Manager.user_connections m2)
    = PyDict.keys (Manager.user_connections (Manager.connect_user ws1 token m))
  ∧ (∀ t, t ≠ token →
       PyDict.get t (Manager.user_connections m2)
       = PyDict.get t (Manager.user_connections m))
  ∧ ∃ m3,
      Manager.disconnect_user token m2 = Some m3
      ∧ PyDict.get token (Manager.user_connections m3) = None
      ∧ ∀ ok, Manager.send_to_user ok token message m3 = Some (m3, []).
Proof.
  intros Hnd m2.
  assert (∀ (ws : WebSocket) (d : PyDict.dict WebSocket),
            NoDup (PyDict.keys d) →
            NoDup (PyDict.keys (PyDict.set token ws d))) as Hset.
  { intros ws d Hd. destruct (dict_keys_set token ws d) as [H1 H2].
    destruct (decide (token ∈ PyDict.keys d)) as [Hk|Hk].
    - by rewrite H1.
    - rewrite H2 by done.
      apply NoDup_app. split_and!; [done| |apply NoDup_singleton].
      intros x Hx ->%list_elem_of_singleton. done. }
  assert (NoDup (PyDict.keys (Manager.user_connections m2))) as Hnd2.
  { simpl. by do 2 apply Hset. }
  assert (PyDict.get token (Manager.user_connections m2) = Some ws2) as Hget.
  { simpl. by rewrite dict_get_set, decide_True. }
  split_and!; try done.
  - simpl. apply (dict_keys_set token ws2).
    apply dec_stable. intros Hn. apply dict_get_None in Hn.
    by rewrite dict_get_set, decide_True in Hn.
  - intros t Ht. subst m2. simpl. by rewrite !dict_get_set, !decide_False.
  - unfold Manager.disconnect_user, PyDict.contains. rewrite Hget.
    rewrite py_dict_del_spec; [|done|].
    2: { apply dec_stable. intros Hn. apply dict_get_None in Hn. congruence. }
    simpl. eexists. split; [done|].
    assert (PyDict.get token
              (filter (λ kv, kv.1 ≠ token) (Manager.user_connections m2))
            = None) as Hgone.
    { rewrite dict_get_filter_ne. by rewrite decide_True. }
    split; [done|]. intros ok. unfold Manager.send_to_user.
    cbn [Manager.user_connections].
    rewrite dict_get_filter_ne. by rewrite decide_True.
Qed.

(** ** Round presets *)

Lemma load_preset_run read st :
  load_preset read st
  = load_preset_options (get_round_options read (round st)) st.
Proof. unfold load_preset. by handler. Qed.

(** X19: [load_preset_options] loads what the configuration file holds
    for the current round.  With no entry for the round, with an entry
    that has no option list or an empty one, and when the file is
    missing or is not valid JSON, it fails with 404 and leaves the store
    as it is.  With a non-empty list, of any length, it succeeds in any
    phase: the options become one option per name with tally 0 and the
    participants in play get their ballots cleared.  [get_round_config]
    reports [has_preset] as soon as a list is configured, also when that
    list is empty and the load would fail. *)
Theorem load_preset_outcomes read read_title st :
  let preset := get_round_options read (round st) in
  let not_found := HTTPException 404 "当前轮次无预设选项，请手动设置" in
  (read = FileNotFoundError ∨ read = JSONDecodeError → preset = None)
  ∧ (preset = None ∨ preset = Some [] →
     load_preset read st = (st, Raise not_found))
  ∧ (∀ names, preset = Some names → names ≠ [] →
     ∃ st',
       load_preset read st = (st', Return (PyDict.values (options st')))
       ∧ options st'
         = imap (λ i name, (option_id i, VoteOption.mk (option_id i) name 0))
             names
       ∧ users st' = PyDict.map_values reset_vote (users st)
       ∧ voted_count st' = 0%nat
       ∧ game_status st' = game_status st
       ∧ round st' = round st
       ∧ round_history st' = round_history st)
  ∧ (rc_has_preset (get_round_config read read_title st) = true
     ↔ is_Some preset)
  ∧ (preset = Some [] →
     rc_has_preset (get_round_config read read_title st) = true
     ∧ rc_message (get_round_config read read_title st)
       = "当前轮次无预设选项，请手动设置").
Proof.
  intros preset not_found. split_and!.
  - intros [->| ->]; reflexivity.
  - intros H. rewrite load_preset_run. fold preset.
    by destruct H as [-> | ->].
  - intros names Hp Hne. rewrite load_preset_run. fold preset. rewrite Hp.
    destruct names as [|n r]; [done|].
    unfold load_preset_options. rewrite replace_options_run.
    exists (mkStore (PyDict.map_values reset_vote (users st))
              (fresh_options (n :: r)) (game_status st) (round st)
              (eliminated_users st) (round_history st)).
    split_and!; try done.
    unfold voted_count. simpl. by rewrite voted_count_reset.
  - simpl. fold preset. by destruct preset; split; try done; intros [? ?].
  - intros Hp. simpl. fold preset. by rewrite Hp.
Qed.

(** X20: presets are kept per round.  A preset stored under the decimal
    form of a round number is the one [get_round_options] and
    [get_round_title] return for that round, and storing it changes what
    they return for no other round. *)
Theorem presets_are_per_round rounds defaults round_num other entry :
  let before := Loaded (Config.mk (Some rounds) defaults) in
  let after :=
    Loaded (Config.mk (Some (<[pretty round_num := entry]> rounds)) defaults) in
  get_round_options after round_num = Config.options entry
  ∧ get_round_title after round_num = Config.title entry
  ∧ (other ≠ round_num →
     get_round_options after other = get_round_options before other
     ∧ get_round_title after other = get_round_title before other).
Proof.
  intros before after. unfold get_round_options, get_round_title, round_preset.
  simpl. split_and!.
  - by rewrite lookup_insert_eq.
  - by rewrite lookup_insert_eq.
  - intros Hne. rewrite lookup_insert_ne; [done|].
    intros E. apply Hne. symmetry. by apply (inj pretty).
Qed.

(** ** Host connections come and go *)

(** X21: [disconnect_host] never fails: for a connection that is not
    registered it changes nothing, and right after [connect_host] of a
    connection that was not registered it gives back the manager as it
    was before the connection. *)
Theorem connect_disconnect_host ws (m : Manager.t) :
  ws ∉ Manager.host_connections m →
  Manager.disconnect_host ws m = Some m
  ∧ Manager.disconnect_host ws (Manager.connect_host ws m) = Some m
  ∧ ∀ ws', ws' ≠ ws →
      ∃ m', Manager.disconnect_host ws' (Manager.connect_host ws m) = Some m'
            ∧ ws ∈ Manager.host_connections m'.
Proof.
  intros Hws. unfold Manager.disconnect_host, Manager.connect_host. simpl.
  assert (∀ l, ws ∉ l → py_list_remove ws (l ++ [ws]) = Some l) as Hrm.
  { induction l as [|y l IH]; simpl; intros Hl.
    - by rewrite decide_True.
    - apply not_elem_of_cons in Hl as [Hne Hl].
      rewrite decide_False by done. by rewrite IH. }
  split_and!.
  - by rewrite bool_decide_eq_false_2.
  - rewrite bool_decide_eq_true_2 by (apply elem_of_app; right; left).
    rewrite Hrm by done. simpl. by destruct m.
  - intros ws' Hne. case_bool_decide as Hin.
    + destruct (py_list_remove_Some ws' _ Hin) as (l' & -> & Hp). simpl.
      eexists. split; [done|]. simpl.
      assert (ws ∈ ws' :: l') as [?|?]%elem_of_cons; [|done..].
      rewrite <-Hp. apply elem_of_app. right. left.
    + eexists. split; [done|]. simpl. apply elem_of_app. right. left.
Qed.

(** ** Failures are clean *)

(** X22: in a reachable store a request either succeeds or fails without
    changing the store, and the failure is always one the handler raises
    on purpose (an [HTTPException]) or the rejection of the request
    body; no [ValueError] or [KeyError] escapes from a handler. *)
Theorem failures_leave_store_unchanged st req e :
  reachable st → uuid_fresh st req →
  (serve req st).2 = Raise e →
  (serve req st).1 = st
  ∧ (e = RequestValidationError ∨ ∃ code detail, e = HTTPException code detail).
Proof.
  intros Hr Hf. pose proof (reachable_Inv _ Hr) as HI.
  destruct req as [name token now|token oid|opts|preset| | |new|]; simpl.
  - destruct (UserRegisterRequest name) as [v|] eqn:Ev.
    2: { intros [= <-]. split; [done | by left]. }
    destruct (validated_name _ _ Ev) as (_ & Hs & _).
    rewrite fmap_run, register_user_run. unfold get_token_by_name.
    rewrite name_key_stripped by done.
    destruct (find_token (PyStr.lower v) (users st)) as [[|c r]|] eqn:E;
      rewrite ?register_new_run; try done.
    pose proof (find_token_key _ _ _ E) as Hk.
    by destruct (dict_get_is_Some _ _ Hk) as [u ->].
  - rewrite fmap_run, submit_vote_run.
    destruct (PyDict.get token (users st)) as [user|].
    2: { intros [= <-]. split; [done | right; by eauto]. }
    destruct (User.eliminated user).
    { intros [= <-]. split; [done | right; by eauto]. }
    destruct (User.voted user).
    { intros [= <-]. split; [done | right; by eauto]. }
    destruct (bool_decide (game_status st = voting)).
    2: { intros [= <-]. split; [done | right; by eauto]. }
    destruct (PyDict.contains oid (options st)); [done|].
    intros [= <-]. split; [done | right; by eauto].
  - unfold CreateOptionsRequest. case_bool_decide.
    + unfold create_options. by rewrite fmap_run, replace_options_run.
    + intros [= <-]. split; [done | by left].
  - rewrite fmap_run. destruct preset as [[|n r]|].
    + intros [= <-]. split; [done | right; by eauto].
    + unfold load_preset_options. by rewrite replace_options_run.
    + intros [= <-]. split; [done | right; by eauto].
  - rewrite bind_run, start_voting_run. destruct (options st); [|done].
    intros [= <-]. split; [done | right; by eauto].
  - rewrite fmap_run, end_voting_run. case_decide; [done|].
    intros [= <-]. split; [done | right; by eauto].
  - rewrite fmap_run. destruct (decide (game_status st = result)) as [Hs|Hs].
    + by rewrite next_round_reachable.
    + rewrite next_round_wrong_phase by done.
      intros [= <-]. split; [done | right; by eauto].
  - done.
Qed.

End Backend.

(** * The sample sessions *)

(** The names of the sample sessions are ASCII. *)
#[global] Existing Instance AsciiStr.ops.

(** ** The phase guard missing from [start_voting], on a session *)

(** C6, the failing input: in the store reached when the voting of
    [session_closed] has been closed (phase result), [start_voting] does
    not fail; it succeeds and moves the phase from result back to voting,
    with the ballots of the closed round still in place. *)
Theorem start_voting_ignores_phase :
  reachable (run session_closed reset)
  ∧ game_status (run session_closed reset) = result
  ∧ start_voting (run session_closed reset)
    = (with_game_status voting (run session_closed reset), Return tt)
  ∧ game_status (start_voting (run session_closed reset)).1 = voting
  ∧ total_votes (start_voting (run session_closed reset)).1 = 3.
Proof.
  split; [apply reachable_session; by vm_compute|].
  split_and!; by vm_compute.
Qed.

(** ** The properties above, on the sessions *)

Lemma tally_conservation_witness :
  reachable (run session_closed reset)
  ∧ total_votes (run session_closed reset)
    = Z.of_nat (voted_count (run session_closed reset))
  ∧ total_votes (run session_closed reset)
    ≤ Z.of_nat (active_users (run session_closed reset)).
Proof.
  assert (reachable (run session_closed reset)) as H
    by (apply reachable_session; vm_compute; exact I).
  split; [exact H | apply (tally_conservation _ H)].
Defined.

Lemma options_nonempty_outside_waiting_witness :
  reachable (run session_closed reset)
  ∧ (game_status (run session_closed reset) = voting
     ∨ game_status (run session_closed reset) = result →
     options (run session_closed reset) ≠ [])
  ∧ (game_status (run session_closed reset) = result →
       is_Some (py_max (VoteOption.votes <$>
                          PyDict.values (options (run session_closed reset)))))
  ∧ ∀ new_options,
      (next_round new_options (run session_closed reset)).2 ≠ Raise ValueError.
Proof.
  assert (reachable (run session_closed reset)) as H
    by (apply reachable_session; vm_compute; exact I).
  split; [exact H | apply (options_nonempty_outside_waiting _ H)].
Defined.

Lemma next_round_majority_rule_witness :
  reachable (run session_closed reset)
  ∧ game_status (run session_closed reset) = result
  ∧ is_tie_of (VoteOption.votes <$>
                 PyDict.values (options (run session_closed reset))) = false
  ∧ ∃ st' resp entry,
      next_round None (run session_closed reset) = (st', Return resp)
      ∧ round_history st'
        = round_history (run session_closed reset) ++ [entry]
      ∧ HistoryEntry.is_tie entry = false.
Proof.
  assert (reachable (run session_closed reset)) as H
    by (apply reachable_session; vm_compute; exact I).
  split; [exact H|]. split; [by vm_compute|]. split; [by vm_compute|].
  destruct (next_round_majority_rule (run session_closed reset) None H)
    as (m & st' & resp & entry & H1 & H2 & H3 & _);
    [by vm_compute | by vm_compute |].
  exists st', resp, entry. split_and!; assumption.
Defined.

Lemma next_round_tie_rule_witness :
  reachable (run session_tie reset)
  ∧ game_status (run session_tie reset) = result
  ∧ ∃ st' resp entry,
      next_round None (run session_tie reset) = (st', Return resp)
      ∧ round_history st' = round_history (run session_tie reset) ++ [entry]
      ∧ nr_is_tie resp = HistoryEntry.is_tie entry.
Proof.
  assert (reachable (run session_tie reset)) as H
    by (apply reachable_session; vm_compute; exact I).
  split; [exact H|]. split; [by vm_compute|].
  destruct (next_round_tie_rule (run session_tie reset) None H)
    as (st' & resp & entry & H1 & H2 & H3 & _); [by vm_compute|].
  exists st', resp, entry. split_and!; assumption.
Defined.

Lemma next_round_all_zero_witness :
  reachable (run session_silent reset)
  ∧ game_status (run session_silent reset) = result
  ∧ (∀ opt, opt ∈ PyDict.values (options (run session_silent reset))
            → VoteOption.votes opt = 0)
  ∧ ∃ st' resp entry,
      next_round None (run session_silent reset) = (st', Return resp)
      ∧ round_history st'
        = round_history (run session_silent reset) ++ [entry]
      ∧ HistoryEntry.is_tie entry = false
      ∧ HistoryEntry.survivors entry = [].
Proof.
  assert (reachable (run session_silent reset)) as H
    by (apply reachable_session; vm_compute; exact I).
  assert (∀ opt, opt ∈ PyDict.values (options (run session_silent reset))
                 → VoteOption.votes opt = 0) as Hz.
  { intros opt Hopt. vm_compute in Hopt.
    repeat (apply elem_of_cons in Hopt as [->|Hopt]; [by vm_compute|]).
    by apply elem_of_nil in Hopt. }
  split; [exact H|]. split; [by vm_compute|]. split; [exact Hz|].
  destruct (next_round_all_zero (run session_silent reset) None H)
    as (st' & resp & entry & H1 & H2 & H3 & _ & _ & _ & H7 & _);
    [by vm_compute | exact Hz |].
  exists st', resp, entry. split_and!; assumption.
Defined.


Lemma submit_vote_outcomes_witness :
  ∃ st',
    submit_vote "t1" "option_2"
      (run [Register "Alice" "t1" "10:00"; CreateOptions ["Red"; "Blue"];
            StartVoting] reset)
    = (st', Return (mkVoteResponse true "投票成功"))
    ∧ total_votes st' = 1
    ∧ submit_vote "t1" "option_1" st'
      = (st', Raise (HTTPException 400 "您已经投过票了")).
Proof.
  pose proof (submit_vote_outcomes
    (run [Register "Alice" "t1" "10:00"; CreateOptions ["Red"; "Blue"];
          StartVoting] reset) "t1" "option_2") as (_ & _ & H).
  destruct (H (User.mk "Alice" false None false "10:00")) as (_ & _ & _ & _ & H5);
    [by vm_compute|].
  destruct H5 as (st' & H1 & _ & _ & H4 & _ & _ & _ & _ & _ & _ & _ & H12);
    [done | done | by vm_compute | eexists; by vm_compute |].
  exists st'. split_and!; [exact H1 | | apply H12].
  rewrite H4. by vm_compute.
Defined.

Lemma elimination_is_monotonic_witness :
  reachable (run (session_closed ++ [NextRound None]) reset)
  ∧ (∃ user', PyDict.get "t1"
                (users (run [CreateOptions ["Left"; "Right"]; StartVoting]
                          (run (session_closed ++ [NextRound None]) reset)))
              = Some user'
              ∧ User.eliminated user' = true
              ∧ User.name user' = "Alice").
Proof.
  assert (reachable (run (session_closed ++ [NextRound None]) reset)) as H
    by (apply reachable_session; vm_compute; exact I).
  split; [exact H|].
  destruct (elimination_is_monotonic
              [CreateOptions ["Left"; "Right"]; StartVoting]
              (run (session_closed ++ [NextRound None]) reset)
              "t1" (User.mk "Alice" true (Some "option_1") true "10:00") H)
    as [Hkeep _].
  - by vm_compute.
  - reflexivity.
  - apply (bool_decide_unpack _). by vm_compute.
  - apply (bool_decide_unpack _). by vm_compute.
  - exact Hkeep.
Defined.

Lemma register_idempotent_witness :
  uuid_distinct
    ([Register "Bob" "t2" "10:01"]
     ++ Register "Alice" "t1" "10:00"
        :: [CreateOptions ["Red"; "Blue"]; StartVoting])
  ∧ ∃ T r1 r2,
      serve (Register "Alice" "t1" "10:00")
        (run [Register "Bob" "t2" "10:01"] reset)
      = ((serve (Register "Alice" "t1" "10:00")
            (run [Register "Bob" "t2" "10:01"] reset)).1,
         Return (RegisterOk r1))
      ∧ reg_token r1 = Some T
      ∧ serve (Register " alice " "t9" "10:09")
          (run [CreateOptions ["Red"; "Blue"]; StartVoting]
             (serve (Register "Alice" "t1" "10:00")
                (run [Register "Bob" "t2" "10:01"] reset)).1)
        = (run [CreateOptions ["Red"; "Blue"]; StartVoting]
             (serve (Register "Alice" "t1" "10:00")
                (run [Register "Bob" "t2" "10:01"] reset)).1,
           Return (RegisterOk r2))
      ∧ reg_token r2 = Some T.
Proof.
  assert (uuid_distinct
            ([Register "Bob" "t2" "10:01"]
             ++ Register "Alice" "t1" "10:00"
                :: [CreateOptions ["Red"; "Blue"]; StartVoting])) as Hd.
  { split; apply (bool_decide_unpack _); by vm_compute. }
  split; [exact Hd|].
  destruct (register_idempotent [Register "Bob" "t2" "10:01"]
              "Alice" "t1" "10:00"
              [CreateOptions ["Red"; "Blue"]; StartVoting]
              " alice " "t9" "10:09" Hd)
    as (T & r1 & r2 & H1 & H2 & H3 & H4 & _).
  - apply (bool_decide_unpack _). by vm_compute.
  - eexists. by vm_compute.
  - eexists. by vm_compute.
  - by vm_compute.
  - exists T, r1, r2. split_and!; assumption.
Defined.

Lemma validation_idempotent_witness :
  UserRegisterRequest "  Alice " = Some "Alice"
  ∧ UserRegisterRequest "Alice" = Some "Alice".
Proof.
  assert (UserRegisterRequest "  Alice " = Some "Alice") as H by by vm_compute.
  split; [exact H|].
  destruct (validation_idempotent "  Alice " "Alice" H)
    as (_ & _ & _ & _ & H2).
  exact H2.
Defined.

Lemma history_numbering_witness :
  reachable (run session_advanced reset)
  ∧ round (run session_advanced reset)
    = Z.of_nat (length (round_history (run session_advanced reset))) + 1.
Proof.
  assert (reachable (run session_advanced reset)) as H
    by (apply reachable_session; vm_compute; exact I).
  split; [exact H|]. destruct (history_numbering _ H) as [H1 _]. exact H1.
Defined.

Lemma eliminated_set_mirrors_flags_witness :
  reachable (run session_advanced reset)
  ∧ ("t1" ∈ eliminated_users (run session_advanced reset)
     ↔ is_eliminated (run session_advanced reset) "t1").
Proof.
  assert (reachable (run session_advanced reset)) as H
    by (apply reachable_session; vm_compute; exact I).
  split; [exact H|]. by destruct (eliminated_set_mirrors_flags _ H) as [H1 _].
Defined.

Lemma option_ids_sequential_witness :
  reachable (run session_voting reset)
  ∧ PyDict.keys (options (run session_voting reset))
    = option_id <$> seq 0 (length (options (run session_voting reset))).
Proof.
  assert (reachable (run session_voting reset)) as H
    by (apply reachable_session; vm_compute; exact I).
  split; [exact H|]. destruct (option_ids_sequential _ H) as [H1 _]. exact H1.
Defined.

Lemma tally_per_option_witness :
  reachable (run session_voting reset)
  ∧ ∀ opt,
      PyDict.get "option_1" (options (run session_voting reset)) = Some opt →
      VoteOption.votes opt
      = Z.of_nat (ballots_for "option_1" (run session_voting reset)).
Proof.
  assert (reachable (run session_voting reset)) as H
    by (apply reachable_session; vm_compute; exact I).
  split; [exact H|]. apply (tally_per_option _ H).
Defined.

Lemma ballot_fields_coherent_witness :
  reachable (run session_voting reset)
  ∧ ballot_coherent (run session_voting reset)
      (User.mk "Alice" true (Some "option_1") false "10:00").
Proof.
  assert (reachable (run session_voting reset)) as H
    by (apply reachable_session; vm_compute; exact I).
  split; [exact H|].
  apply (ballot_fields_coherent _ H "t1"); by vm_compute.
Defined.

Lemma participants_distinct_witness :
  reachable (run session_voting reset)
  ∧ NoDup ((λ u, PyStr.lower (User.name u))
             <$> PyDict.values (users (run session_voting reset))).
Proof.
  assert (reachable (run session_voting reset)) as H
    by (apply reachable_session; vm_compute; exact I).
  split; [exact H|]. destruct (participants_distinct _ H) as [H1 _]. exact H1.
Defined.

Lemma next_round_headcount_witness :
  reachable (run session_closed reset)
  ∧ game_status (run session_closed reset) = result
  ∧ ∃ st' resp,
      next_round None (run session_closed reset) = (st', Return resp)
      ∧ (nr_eliminated_count resp + nr_active_users resp = 3)%nat.
Proof.
  assert (reachable (run session_closed reset)) as H
    by (apply reachable_session; vm_compute; exact I).
  split; [exact H|]. split; [by vm_compute|].
  destruct (next_round_headcount (run session_closed reset) None H)
    as (st' & resp & entry & H1 & _ & H3 & _); [by vm_compute|].
  exists st', resp. split; [exact H1|]. rewrite H3. by vm_compute.
Defined.

Lemma headcount_partition_witness :
  reachable (run session_advanced reset)
  ∧ (cfg_user_count (get_config (run session_advanced reset))
     + size (eliminated_users (run session_advanced reset)) = 3)%nat.
Proof.
  assert (reachable (run session_advanced reset)) as H
    by (apply reachable_session; vm_compute; exact I).
  split; [exact H|]. rewrite (headcount_partition _ H). by vm_compute.
Defined.

Lemma create_options_effect_witness :
  ∃ st',
    serve (CreateOptions ["Red"; "Blue"; "Green"]) (run session_voting reset)
    = (st', Return (OptionsOk (PyDict.values (options st'))))
    ∧ total_votes st' = 0.
Proof.
  destruct (create_options_effect (run session_voting reset)
              ["Red"; "Blue"; "Green"]) as [_ H].
  destruct H as (st' & H1 & _ & _ & H4 & _); [simpl; lia|].
  exists st'. split; assumption.
Defined.

Lemma token_keeps_resolving_witness :
  ∃ status,
    get_user_status "t1"
      (run [NextRound None; CreateOptions ["Left"; "Right"]]
         (run session_closed reset))
    = (run [NextRound None; CreateOptions ["Left"; "Right"]]
         (run session_closed reset), Return status)
    ∧ us_name status = "Alice".
Proof.
  assert (reachable (run session_closed reset)) as H
    by (apply reachable_session; vm_compute; exact I).
  pose proof (token_keeps_resolving
    [NextRound None; CreateOptions ["Left"; "Right"]]
    (run session_closed reset) "t1" H) as X.
  assert (PyDict.get "t1" (users (run session_closed reset))
          = Some (User.mk "Alice" true (Some "option_1") false "10:00")) as E
    by by vm_compute.
  rewrite E in X.
  destruct X as (status & H1 & H2 & _).
  - apply (bool_decide_unpack _). by vm_compute.
  - apply (bool_decide_unpack _). by vm_compute.
  - exists status. split; assumption.
Defined.


Lemma round_can_complete_witness :
  reachable (run session_voting reset)
  ∧ ∃ st1 st2 st3 resp,
      serve StartVoting (run session_voting reset) = (st1, Return StartOk)
      ∧ serve EndVoting st1
        = (st2, Return (EndOk (PyDict.values
                                 (options (run session_voting reset)))))
      ∧ serve (NextRound None) st2 = (st3, Return (NextRoundOk resp))
      ∧ game_status st3 = waiting.
Proof.
  assert (reachable (run session_voting reset)) as H
    by (apply reachable_session; vm_compute; exact I).
  split; [exact H|].
  destruct (round_can_complete (run session_voting reset) None H)
    as (st1 & st2 & st3 & resp & H1 & H2 & H3 & _ & _ & H6 & _);
    [by vm_compute|].
  exists st1, st2, st3, resp. split_and!; assumption.
Defined.

Lemma broadcast_to_hosts_prunes_witness :
  Manager.broadcast_to_hosts (λ i, negb (i =? 1)%nat) "ping"
    (Manager.mk [10; 11; 12]%nat [("t1", 20%nat)])
  = Some (Manager.mk [10; 12]%nat [("t1", 20%nat)],
          [(10%nat, "ping"); (12%nat, "ping")]).
Proof.
  destruct (broadcast_to_hosts_prunes (λ i, negb (i =? 1)%nat) "ping"
              (Manager.mk [10; 11; 12]%nat [("t1", 20%nat)]))
    as (kept & H1 & _ & H3 & _).
  rewrite H1, H3; [done|]. apply (bool_decide_unpack _). by vm_compute.
Defined.

Lemma broadcast_to_users_prunes_witness :
  Manager.broadcast_to_users (λ i, negb (i =? 0)%nat) "ping"
    (Manager.mk [10%nat] [("t1", 20%nat); ("t2", 21%nat)])
  = Some (Manager.mk [10%nat] [("t2", 21%nat)], [(21%nat, "ping")]).
Proof.
  destruct (broadcast_to_users_prunes (λ i, negb (i =? 0)%nat) "ping"
              (Manager.mk [10%nat] [("t1", 20%nat); ("t2", 21%nat)]))
    as (H1 & _).
  - apply (bool_decide_unpack _). by vm_compute.
  - rewrite H1. by vm_compute.
Defined.

Lemma send_to_user_outcomes_witness :
  ∃ d,
    Manager.send_to_user false "t1" "ping"
      (Manager.mk [10%nat] [("t1", 20%nat); ("t2", 21%nat)])
    = Some (Manager.mk [10%nat] d, [])
    ∧ PyDict.get "t1" d = None.
Proof.
  pose proof (send_to_user_outcomes false "t1" "ping"
                (Manager.mk [10%nat] [("t1", 20%nat); ("t2", 21%nat)])) as H.
  simpl in H. destruct H as [_ H].
  - apply (bool_decide_unpack _). by vm_compute.
  - destruct H as (d & H1 & H2 & _); [done|]. exists d. by split.
Defined.

Lemma reconnect_replaces_witness :
  PyDict.get "t1"
    (Manager.user_connections
       (Manager.connect_user 21%nat "t1"
          (Manager.connect_user 20%nat "t1" (Manager.mk [] []))))
  = Some 21%nat.
Proof.
  destruct (reconnect_replaces 20%nat 21%nat "t1" "ping" (Manager.mk [] []))
    as (_ & H & _); [constructor | exact H].
Defined.

Lemma load_preset_outcomes_witness :
  load_preset FileNotFoundError (run session_advanced reset)
  = (run session_advanced reset,
     Raise (HTTPException 404 "当前轮次无预设选项，请手动设置")).
Proof.
  destruct (load_preset_outcomes FileNotFoundError FileNotFoundError
              (run session_advanced reset)) as (H1 & H2 & _).
  apply H2. left. apply H1. by left.
Defined.

Lemma presets_are_per_round_witness :
  get_round_options
    (Loaded (Config.mk
               (Some (<[pretty 2 := Config.mkRound (Some ["Left"; "Right"]) None]> ∅))
               None)) 3
  = None.
Proof.
  destruct (presets_are_per_round ∅ None 2 3
              (Config.mkRound (Some ["Left"; "Right"]) None)) as (_ & _ & H).
  destruct H as [H _]; [done|]. rewrite H. by vm_compute.
Defined.

Lemma connect_disconnect_host_witness :
  Manager.disconnect_host 12%nat
    (Manager.connect_host 12%nat (Manager.mk [10; 11]%nat []))
  = Some (Manager.mk [10; 11]%nat []).
Proof.
  destruct (connect_disconnect_host 12%nat (Manager.mk [10; 11]%nat []))
    as (_ & H & _); [|exact H].
  apply (bool_decide_unpack _). by vm_compute.
Defined.

Lemma failures_leave_store_unchanged_witness :
  reachable (run session_closed reset)
  ∧ (serve (Vote "t1" "option_2") (run session_closed reset)).1
    = run session_closed reset.
Proof.
  assert (reachable (run session_closed reset)) as H
    by (apply reachable_session; vm_compute; exact I).
  split; [exact H|].
  destruct (failures_leave_store_unchanged (run session_closed reset)
              (Vote "t1" "option_2")
              (HTTPException 400 "您已经投过票了") H) as [H1 _].
  - exact I.
  - by vm_compute.
  - exact H1.
Defined.
